(** * StreamSnag front end: a shallow embedding of [frontend/src/App.tsx]

    - [JS]: the fragment of the JavaScript runtime the component relies on:
      strings as UTF-16 code units, JSON values, truthiness, [ToString],
      [trim], [substring], [encodeURIComponent], thrown values, and
      [Number.prototype.toString] in radix 36.
    - [App]: the state cells of the component and its handlers
      [fetchVideoInfo], [handleDownload], [ws.onmessage], [ws.onerror], the
      timer callback and [getQualityFormats], in a small monad that threads
      the state, records the trace of effects and propagates exceptions.
    - [Samples], [Vocabulary]: sample inputs and the notions the statements
      are phrased with.
    - [Page], [Format]: the outcome of a call, the controls the page
      renders, and the formatters.
    - The properties: of the radix conversion, of the handlers, of the
      page. *)

From Stdlib Require Import ZArith NArith Ascii String Lia.
From stdpp Require Import base option list sorting strings gmap.

#[local] Set Warnings "-register-all".
#[local] Open Scope N_scope.

(* ===================================================================== *)
(** * The JavaScript fragment                                             *)
(* ===================================================================== *)

Module JS.

(** ** Strings

    A JavaScript string is a finite sequence of 16-bit code units.  Code
    units are kept as [N]; every function below only ever produces units
    below [0x10000] from units below [0x10000]. *)

Definition jsstring : Type := list N.

(** A literal of the program text, as code units (the literals of this
    program are all ASCII). *)
Definition str (s : string) : jsstring :=
  (fun a => N_of_ascii a) <$> list_ascii_of_string s.

Coercion str : string >-> jsstring.
Arguments str : simpl never.

(** [s.substring(start)] for a non-negative [start]: the units from index
    [start] on, nothing when [start] is past the end. *)
Definition substring (start : nat) (s : jsstring) : jsstring := drop start s.

(** [WhiteSpace] and [LineTerminator] code points of ECMA-262, the ones
    [String.prototype.trim] strips. *)
Definition is_white_space (c : N) : bool :=
  (c =? 0x09) || (c =? 0x0A) || (c =? 0x0B) || (c =? 0x0C) || (c =? 0x0D)
  || (c =? 0x20) || (c =? 0xA0) || (c =? 0x1680)
  || ((0x2000 <=? c) && (c <=? 0x200A))
  || (c =? 0x2028) || (c =? 0x2029) || (c =? 0x202F) || (c =? 0x205F)
  || (c =? 0x3000) || (c =? 0xFEFF).

Fixpoint trimStart (s : jsstring) : jsstring :=
  match s with
  | c :: r => if is_white_space c then trimStart r else s
  | [] => []
  end.

Definition trimEnd (s : jsstring) : jsstring := reverse (trimStart (reverse s)).

Definition trim (s : jsstring) : jsstring := trimEnd (trimStart s).

(** [s.replace(/^http/, "ws")]: only a match at index 0 is replaced. *)
Definition replace_leading_http (s : jsstring) : jsstring :=
  if bool_decide (take 4 s = str "http") then str "ws" ++ drop 4 s else s.

(** ** Thrown values

    What a [catch] clause can receive: an object for which
    [err instanceof Error] holds, with its [message], or anything else. *)

Inductive Thrown :=
| ErrorObject (message : jsstring)
| NotAnError.

Inductive Completion (A : Type) :=
| Normal (a : A)
| Throw (e : Thrown).
Arguments Normal {A} a.
Arguments Throw {A} e.

(** Message texts of the errors the runtime itself raises (the wording is
    the engine's; V8's is used). *)
Definition URIError_message : jsstring := str "URI malformed".

Definition TypeError_message (base prop : jsstring) : jsstring :=
  str "Cannot read properties of " ++ base ++ str " (reading '" ++ prop ++ str "')".

Definition cannot_convert_message : jsstring :=
  str "Cannot convert object to primitive value".

(** ** encodeURIComponent *)

Definition is_unescaped (c : N) : bool :=
  ((0x41 <=? c) && (c <=? 0x5A)) || ((0x61 <=? c) && (c <=? 0x7A))
  || ((0x30 <=? c) && (c <=? 0x39))
  || bool_decide (c ∈ str "-_.!~*'()").

Definition hex_digit (d : N) : N :=
  if d <? 10 then 0x30 + d else 0x41 + (d - 10).

(** ["%XX"] for one octet. *)
Definition percent_octet (o : N) : jsstring :=
  [0x25; hex_digit (o / 16); hex_digit (o mod 16)].

(** The UTF-8 octets of a code point. *)
Definition utf8_octets (cp : N) : list N :=
  if cp <? 0x80 then [cp]
  else if cp <? 0x800 then [0xC0 + cp / 64; 0x80 + cp mod 64]
  else if cp <? 0x10000 then
    [0xE0 + cp / 4096; 0x80 + (cp / 64) mod 64; 0x80 + cp mod 64]
  else
    [0xF0 + cp / 262144; 0x80 + (cp / 4096) mod 64;
     0x80 + (cp / 64) mod 64; 0x80 + cp mod 64].

Definition is_leading_surrogate (c : N) : bool := (0xD800 <=? c) && (c <=? 0xDBFF).
Definition is_trailing_surrogate (c : N) : bool := (0xDC00 <=? c) && (c <=? 0xDFFF).

Definition escape_code_point (cp : N) : jsstring :=
  mjoin (percent_octet <$> utf8_octets cp).

(** ECMA-262 [Encode] with the unescaped set of [encodeURIComponent]; [None]
    is the URIError raised at an unpaired surrogate. *)
Fixpoint encode (s : jsstring) : option jsstring :=
  match s with
  | [] => Some []
  | c :: r =>
      if is_unescaped c then (c ::.) <$> encode r
      else if is_trailing_surrogate c then None
      else if is_leading_surrogate c then
        match r with
        | d :: r' =>
            if is_trailing_surrogate d then
              (escape_code_point ((c - 0xD800) * 0x400 + (d - 0xDC00) + 0x10000) ++.)
                <$> encode r'
            else None
        | [] => None
        end
      else (escape_code_point c ++.) <$> encode r
  end.

Definition encodeURIComponent (s : jsstring) : Completion jsstring :=
  match encode s with
  | Some e => Normal e
  | None => Throw (ErrorObject URIError_message)
  end.

(** ** Values

    The values [JSON.parse] and [response.json()] produce, plus [undefined]
    (the result of reading a missing property).  The program never computes
    with the numbers it receives: it only tests them for truthiness and
    converts them to strings.  A Number is therefore kept as its canonical
    rendering [Number::toString] (["0"] for both zeros, ["NaN"], ["45.3"],
    ...). *)

Inductive JsVal :=
| JUndefined
| JNull
| JBool (b : bool)
| JNum (rendering : jsstring)
| JStr (s : jsstring)
| JArr (l : list JsVal)
| JObj (m : gmap jsstring JsVal).

(** [ToBoolean]. *)
Definition truthy (v : JsVal) : bool :=
  match v with
  | JUndefined | JNull => false
  | JBool b => b
  | JNum r => negb (bool_decide (r = str "0") || bool_decide (r = str "NaN"))
  | JStr s => negb (bool_decide (s = []))
  | JArr _ | JObj _ => true
  end.

(** [a || b]. *)
Definition or_else (a b : JsVal) : JsVal := if truthy a then a else b.

(** [Array.prototype.join] on already converted elements. *)
Fixpoint join (sep : jsstring) (parts : list jsstring) : jsstring :=
  match parts with
  | [] => []
  | [p] => p
  | p :: ps => p ++ sep ++ join sep ps
  end.

(** [ToString], as template literals and [new Error(v)] apply it.  Arrays
    go through [Array.prototype.toString] (elements joined by [","], [null]
    and [undefined] elements rendered empty).  A parsed object goes through
    [OrdinaryToPrimitive]: with no own [toString] property it inherits
    [Object.prototype.toString]; an own [toString] is never callable (it is
    a JSON value), and then [valueOf], own or inherited, yields no
    primitive either, so the conversion throws a TypeError. *)
Fixpoint ToString (v : JsVal) : Completion jsstring :=
  match v with
  | JUndefined => Normal (str "undefined")
  | JNull => Normal (str "null")
  | JBool true => Normal (str "true")
  | JBool false => Normal (str "false")
  | JNum r => Normal r
  | JStr s => Normal s
  | JArr l =>
      match
        (fix elements (l : list JsVal) : Completion (list jsstring) :=
           match l with
           | [] => Normal []
           | e :: l' =>
               match match e with
                     | JUndefined | JNull => Normal []
                     | _ => ToString e
                     end with
               | Throw t => Throw t
               | Normal p =>
                   match elements l' with
                   | Throw t => Throw t
                   | Normal ps => Normal (p :: ps)
                   end
               end
           end) l
      with
      | Throw t => Throw t
      | Normal parts => Normal (join (str ",") parts)
      end
  | JObj m =>
      match m !! str "toString" with
      | Some _ => Throw (ErrorObject cannot_convert_message)
      | None => Normal (str "[object Object]")
      end
  end.

(** [v === "literal"]. *)
Definition strict_eq_string (v : JsVal) (s : jsstring) : bool :=
  match v with
  | JStr s' => bool_decide (s' = s)
  | _ => false
  end.

(** The property names the program reads from values of type [any]. *)
Inductive Field := detail | status | download_url.

Definition field_name (f : Field) : jsstring :=
  match f with
  | detail => str "detail"
  | status => str "status"
  | download_url => str "download_url"
  end.

(** [v.f] for [f] one of the names above: a TypeError on [null] and
    [undefined], the own property of an object, and [undefined] on every
    other value (no primitive wrapper and no array has a property of one of
    these names). *)
Definition get (v : JsVal) (f : Field) : Completion JsVal :=
  match v with
  | JUndefined =>
      Throw (ErrorObject (TypeError_message (str "undefined") (field_name f)))
  | JNull => Throw (ErrorObject (TypeError_message (str "null") (field_name f)))
  | JObj m => Normal (default JUndefined (m !! field_name f))
  | _ => Normal JUndefined
  end.

(** [new Error(v)]: the message is [ToString v] unless [v] is [undefined],
    where the inherited empty message shows; the conversion may throw. *)
Definition new_Error (v : JsVal) : Completion Thrown :=
  match v with
  | JUndefined => Normal (ErrorObject [])
  | _ =>
      match ToString v with
      | Normal s => Normal (ErrorObject s)
      | Throw t => Throw t
      end
  end.

(** What [throw new Error(v)] throws: the new [Error], or what its
    construction threw. *)
Definition thrown_by (e : Completion Thrown) : Thrown :=
  match e with
  | Normal t => t
  | Throw t => t
  end.

(** ** Math.random() and Number.prototype.toString(36)

    [Math.random()] yields a Number in the interval [0, 1); engines draw it
    from the multiples of 2^-53.  The Number [k / 2^53] is represented by
    [k]. *)

Definition unit_double : Type := N.

Definition radix_digit (d : N) : N :=
  if d <? 10 then 0x30 + d else 0x61 + (d - 10).

(** Fractions are numerators over [scale]: every Number the conversion
    computes with is a multiple of 2^-106. *)
Definition scale : N := 2 ^ 106.

(** Rounding of the exact result of an arithmetic operation to the nearest
    Number (53 significant bits, ties to even). *)
Definition round53 (x : N) : N :=
  let b := N.log2 x in
  if b <? 53 then x
  else
    let shift := b - 52 in
    let q := N.shiftr x shift in
    let r := x - N.shiftl q shift in
    let half := N.shiftl 1 (shift - 1) in
    N.shiftl (if (half <? r) || ((r =? half) && N.odd q) then q + 1 else q) shift.

(** Carry into the digits already written, last digit first: digits that
    cannot be incremented are dropped; [true] when the carry reaches the
    integer part. *)
Fixpoint carry_over (written : list N) : list N * bool :=
  match written with
  | [] => ([], true)
  | d :: r => if d + 1 <? 36 then ((d + 1) :: r, false) else carry_over r
  end.

(** The digit loop of the engine's radix conversion (V8's
    [DoubleToRadixCString], the generalisation of the radix-10 algorithm
    that ECMA-262 asks for): digits are produced while the remaining
    fraction is at least [delta], half the distance to the next Number
    scaled along; the last digit is rounded to even.  [delta] grows by a
    factor 36 per digit and the fraction stays below 1, so the loop ends
    within 22 rounds (lemma [fraction_digits_rounds]). *)
Fixpoint fraction_digits (fuel : nat) (fraction delta : N) (written : list N)
  : list N * bool :=
  match fuel with
  | O => (written, false)
  | S fuel' =>
      let fraction := round53 (fraction * 36) in
      let delta := round53 (delta * 36) in
      let digit := fraction / scale in
      let written := digit :: written in
      let fraction := fraction - digit * scale in
      if ((scale <? 2 * fraction) || ((2 * fraction =? scale) && N.odd digit))
         && (scale <? round53 (fraction + delta))
      then carry_over written
      else if delta <=? fraction
           then fraction_digits fuel' fraction delta written
           else (written, false)
  end.

(** [(k / 2^53).toString(36)]. *)
Definition toString36 (k : unit_double) : jsstring :=
  let fraction := k * 2 ^ 53 in
  let delta := 2 ^ N.log2 k in
  if delta <=? fraction then
    match fraction_digits 22 fraction delta [] with
    | (_, true) => str "1"
    | (written, false) => str "0." ++ (radix_digit <$> reverse written)
    end
  else str "0".

End JS.

(* ===================================================================== *)
(** * The component [App]                                                 *)
(* ===================================================================== *)

Module App.
Import JS.

(** ** Configuration: [API_BASE] and [WS_BASE] *)

(** [import.meta.env.VITE_API_URL], [None] when the variable is not set. *)
Record Config := { VITE_API_URL : option jsstring }.

Definition API_BASE (c : Config) : jsstring :=
  match VITE_API_URL c with
  | Some s => if bool_decide (s = []) then str "http://localhost:8000" else s
  | None => str "http://localhost:8000"
  end.

Definition WS_BASE (c : Config) : jsstring := replace_leading_http (API_BASE c).

(** ** Data *)

(** [interface VideoFormat].  [resolution] and [filesize] are [None] for a
    JSON [null]; numbers are kept as their rendering. *)
Record VideoFormat := {
  format_id : jsstring;
  format_note : jsstring;
  ext : jsstring;
  resolution : option jsstring;
  filesize : option jsstring;
  acodec : jsstring;
  vcodec : jsstring
}.

(** [interface VideoInfo] (the field [id] is [info_id] here). *)
Record VideoInfo := {
  info_id : jsstring;
  title : jsstring;
  thumbnail : jsstring;
  duration : jsstring;
  uploader : jsstring;
  formats : list VideoFormat
}.

(** An object literal or parsed object: its own properties. *)
Abbreviation JsObject := (gmap jsstring JsVal).

(** The [useState] cells of the component. *)
Record State := {
  url : jsstring;
  loading : bool;
  videoInfo : option VideoInfo;
  error : option jsstring;
  selectedFormat : jsstring;
  downloading : bool;
  downloadProgress : option JsObject
}.

(** [{ ...v }]: the own enumerable properties of [v]; none for [null],
    [undefined], numbers and booleans.  (Strings and arrays would
    contribute their indices; the one spread of the program, in
    [onmessage], only meets values whose [status] is a string, which are
    objects.) *)
Definition own_properties (v : JsVal) : JsObject :=
  match v with
  | JObj m => m
  | _ => ∅
  end.

(** The calls of the state setters.  [MergeDownloadProgress data] is
    [setDownloadProgress(prev => ({ ...prev, ...data }))]. *)
Inductive Setter :=
| setLoading (b : bool)
| setVideoInfo (v : option VideoInfo)
| setError (e : option jsstring)
| setDownloading (b : bool)
| setDownloadProgress (p : option JsObject)
| MergeDownloadProgress (data : JsVal).

Definition apply_setter (s : Setter) (st : State) : State :=
  match s with
  | setLoading b =>
      {| url := url st; loading := b; videoInfo := videoInfo st;
         error := error st; selectedFormat := selectedFormat st;
         downloading := downloading st; downloadProgress := downloadProgress st |}
  | setVideoInfo v =>
      {| url := url st; loading := loading st; videoInfo := v;
         error := error st; selectedFormat := selectedFormat st;
         downloading := downloading st; downloadProgress := downloadProgress st |}
  | setError e =>
      {| url := url st; loading := loading st; videoInfo := videoInfo st;
         error := e; selectedFormat := selectedFormat st;
         downloading := downloading st; downloadProgress := downloadProgress st |}
  | setDownloading b =>
      {| url := url st; loading := loading st; videoInfo := videoInfo st;
         error := error st; selectedFormat := selectedFormat st;
         downloading := b; downloadProgress := downloadProgress st |}
  | setDownloadProgress p =>
      {| url := url st; loading := loading st; videoInfo := videoInfo st;
         error := error st; selectedFormat := selectedFormat st;
         downloading := downloading st; downloadProgress := p |}
  | MergeDownloadProgress data =>
      {| url := url st; loading := loading st; videoInfo := videoInfo st;
         error := error st; selectedFormat := selectedFormat st;
         downloading := downloading st;
         downloadProgress :=
           Some (own_properties data ∪ default ∅ (downloadProgress st)) |}
  end.

(** ** Effects *)

(** What a handler does to the outside, in the order it does it.  The
    [WebSocket] constructor is taken to accept the address it is given, as
    it does for every http(s) or ws(s) [API_BASE]; [location_href] stands
    for an assignment to [window.location.href] that the browser accepted
    (see [href_error] below for the other case). *)
Inductive Event :=
| Math_random (k : unit_double)      (* Math.random() returned k / 2^53 *)
| new_WebSocket (address : jsstring)
| fetch (address : jsstring)
| response_json
| location_href (address : jsstring) (* window.location.href = address *)
| ws_close
| setTimeout (ms : N)
| console_error
| set_state (s : Setter).

Record World := { state : State; trace : list Event }.

(** A computation: runs in a world, completes normally or abruptly. *)
Definition M (A : Type) : Type := World -> Completion A * World.

Definition ret {A} (a : A) : M A := fun w => (Normal a, w).

Definition bind {A B} (m : M A) (k : A -> M B) : M B :=
  fun w =>
    match m w with
    | (Normal a, w') => k a w'
    | (Throw e, w') => (Throw e, w')
    end.

Declare Scope js_scope.
Delimit Scope js_scope with js.
Bind Scope js_scope with M.
Notation "x ← m ; k" := (bind m (fun x => k))
  (at level 20, m at level 100, k at level 200, only parsing) : js_scope.
Notation "m ;; k" := (bind m (fun _ => k))
  (at level 100, k at level 200, only parsing, right associativity) : js_scope.
#[local] Open Scope js_scope.

Definition throw {A} (e : Thrown) : M A := fun w => (Throw e, w).

Definition lift {A} (c : Completion A) : M A := fun w => (c, w).

Definition emit (e : Event) : M unit :=
  fun w => (Normal (), {| state := state w; trace := trace w ++ [e] |}).

Definition set (s : Setter) : M unit :=
  fun w => (Normal (),
            {| state := apply_setter s (state w);
               trace := trace w ++ [set_state s] |}).

(** [try { body } catch (err) { handler } finally { finalizer }]. *)
Definition try_catch_finally (body : M unit) (handler : Thrown -> M unit)
    (finalizer : M unit) : M unit :=
  fun w =>
    let '(c, w1) :=
      match body w with
      | (Normal _, w') => (Normal (), w')
      | (Throw e, w') => handler e w'
      end in
    match finalizer w1 with
    | (Normal _, w2) => (c, w2)
    | (Throw e, w2) => (Throw e, w2)
    end.

(** An event handler the browser calls: what it throws is reported and goes
    nowhere. *)
Definition dispatch (handler : M unit) : M unit :=
  fun w => (Normal (), snd (handler w)).

Definition run {A} (m : M A) (st : State) : Completion A * World :=
  m {| state := st; trace := [] |}.

(** ** The environment of one call *)

(** A settled [fetch]: the [ok] flag of the response and the completion of
    its [json()] promise. *)
Record Response (B : Type) := { ok : bool; json : Completion B }.
Arguments ok {B} r.
Arguments json {B} r.

(** What arrives on the progress channel: a message, given by the
    completion of [JSON.parse(event.data)], or an error event. *)
Inductive ChannelEvent :=
| message (parsed : Completion JsVal)
| channel_error.

(** One call of [handleDownload] from outside: the Number [Math.random()]
    returns, how the download request settles, what the channel delivers
    while the handler is suspended at each [await], and what the browser
    makes of an address assigned to [window.location.href]: [None] when its
    URL parser accepts the address and the navigation starts, the message of
    the SyntaxError (a DOMException, for which [err instanceof Error] holds)
    that the setter throws when it does not. *)
Record DownloadRun := {
  random : unit_double;
  download_response : Completion (Response JsVal);
  during_fetch : list ChannelEvent;
  during_json : list ChannelEvent;
  href_error : jsstring -> option jsstring
}.

(** The body of an [/api/info] response, [data] of lines 46-52, which is of
    type [any].  [data_value] is the value as parsed: [data.detail] is read
    from it, and its truthiness is what every later test of the cell
    ([!videoInfo], [videoInfo && ...]) sees once [setVideoInfo(data)] has
    stored it.  The cell is declared [VideoInfo | null] and the component
    reads what it holds through [interface VideoInfo]; [data_info] is the
    body read that way.  A falsy body ([null], [false], 0, the empty
    string) is stored as it is and counts as no video info in all these
    tests: it is the [None] of the cell. *)
Record InfoData := { data_value : JsVal; data_info : VideoInfo }.

(** [setVideoInfo(data)], line 52. *)
Definition stored (data : InfoData) : option VideoInfo :=
  if truthy (data_value data) then Some (data_info data) else None.

Record InfoRun := { info_response : Completion (Response InfoData) }.

(** ** The handlers *)

(** [if (!error)] and [{error && ...}]: [null] and the empty string are
    falsy. *)
Definition error_shown (e : option jsstring) : bool :=
  match e with
  | Some m => negb (bool_decide (m = []))
  | None => false
  end.

(** [err instanceof Error ? err.message : fallback]. *)
Definition message_or (fallback : jsstring) (err : Thrown) : jsstring :=
  match err with
  | ErrorObject m => m
  | NotAnError => fallback
  end.

(** [fetchVideoInfo], lines 34-58.  [closure] holds the state cells as the
    handler's closure sees them (the cells of the render it was created
    in). *)
Definition fetchVideoInfo (c : Config) (closure : State) (r : InfoRun) : M unit :=
  if bool_decide (trim (url closure) = []) then
    set (setError (Some (str "Please enter a YouTube URL")))
  else
    set (setLoading true);;
    set (setError None);;
    set (setVideoInfo None);;
    try_catch_finally
      (enc ← lift (encodeURIComponent (url closure));
       emit (fetch (API_BASE c ++ str "/api/info?url=" ++ enc));;
       response ← lift (info_response r);
       emit response_json;;
       data ← lift (json response);
       if negb (ok response) then
         d ← lift (get (data_value data) detail);
         e ← lift (new_Error (or_else d (JStr (str "Failed to fetch video info"))));
         throw e
       else
         set (setVideoInfo (stored data)))
      (fun err => set (setError (Some (message_or (str "An error occurred") err))))
      (set (setLoading false)).

(** [ws.onmessage], lines 94-99, on the completion of
    [JSON.parse(event.data)]. *)
Definition onmessage (parsed : Completion JsVal) : M unit :=
  data ← lift parsed;
  s ← lift (get data status);
  if strict_eq_string s (str "downloading") then
    set (MergeDownloadProgress data)
  else
    s' ← lift (get data status);
    if strict_eq_string s' (str "finished") then
      set (MergeDownloadProgress data)
    else ret ().

(** [ws.onerror], lines 101-103. *)
Definition onerror : M unit := emit console_error.

Definition handle (ev : ChannelEvent) : M unit :=
  match ev with
  | message parsed => dispatch (onmessage parsed)
  | channel_error => dispatch onerror
  end.

(** The handler is suspended at an [await]; the channel events that arrive
    meanwhile are handled in order. *)
Fixpoint deliver (evs : list ChannelEvent) : M unit :=
  match evs with
  | [] => ret ()
  | ev :: evs' => handle ev;; deliver evs'
  end.

(** [{ percent: 0, speed: 0, eta: 0, status: "starting" }] *)
Definition progress_starting : JsObject :=
  <[str "percent" := JNum (str "0")]>
    (<[str "speed" := JNum (str "0")]>
       (<[str "eta" := JNum (str "0")]>
          (<[str "status" := JStr (str "starting")]> ∅))).

(** [{ percent: 100, speed: 0, eta: 0, status: "completed" }] *)
Definition progress_completed : JsObject :=
  <[str "percent" := JNum (str "100")]>
    (<[str "speed" := JNum (str "0")]>
       (<[str "eta" := JNum (str "0")]>
          (<[str "status" := JStr (str "completed")]> ∅))).

(** The client token of line 89,
    [Math.random().toString(36).substring(7)], for the Number [k / 2^53]
    that [Math.random()] returned. *)
Definition clientId (k : unit_double) : jsstring := substring 7 (toString36 k).
Arguments clientId : simpl never.

(** The address of the download request, line 106. *)
Definition downloadUrl (c : Config) (enc fmt tok : jsstring) : jsstring :=
  API_BASE c ++ str "/api/download?url=" ++ enc
  ++ str "&format_id=" ++ fmt ++ str "&client_id=" ++ tok.

(** The assignment [window.location.href = address], line 120. *)
Definition assign_href (r : DownloadRun) (address : jsstring) : M unit :=
  match href_error r address with
  | Some msg => throw (ErrorObject msg)
  | None => emit (location_href address)
  end.

(** Lines 111-123 of the [try] block: what is done with the settled
    response and its parsed body [data]. *)
Definition use_response (c : Config) (r : DownloadRun) (response : Response JsVal)
    (data : JsVal) : M unit :=
  (if negb (ok response) then
     d ← lift (get data detail);
     e ← lift (new_Error (or_else d (JStr (str "Download failed"))));
     throw e
   else ret ());;
  s ← lift (get data status);
  if strict_eq_string s (str "success") then
    u ← lift (get data download_url);
    if truthy u then
      set (setDownloadProgress (Some progress_completed));;
      u' ← lift (get data download_url);
      path ← lift (ToString u');
      assign_href r (API_BASE c ++ path)
    else
      e ← lift (new_Error (JStr (str "Download failed - invalid response")));
      throw e
  else
    e ← lift (new_Error (JStr (str "Download failed - invalid response")));
    throw e.

(** The [try] block of [handleDownload], lines 105-124.  The two [await]s
    are where the handler is suspended and channel events are handled. *)
Definition try_block (c : Config) (closure : State) (r : DownloadRun)
    (clientId : jsstring) : M unit :=
  enc ← lift (encodeURIComponent (url closure));
  emit (fetch (downloadUrl c enc (selectedFormat closure) clientId));;
  deliver (during_fetch r);;
  response ← lift (download_response r);
  emit response_json;;
  deliver (during_json r);;
  data ← lift (json response);
  use_response c r response data.

(** The [catch] block, lines 125-127. *)
Definition catch_block (err : Thrown) : M unit :=
  set (setError (Some (message_or (str "Download failed") err)));;
  set (setDownloadProgress None).

(** The [finally] block, lines 128-135; [error] is the cell as the closure
    sees it. *)
Definition finally_block (closure : State) : M unit :=
  set (setDownloading false);;
  emit ws_close;;
  if negb (error_shown (error closure)) then emit (setTimeout 3000)
  else ret ().

(** [handleDownload], lines 81-136. *)
Definition handleDownload (c : Config) (closure : State) (r : DownloadRun) : M unit :=
  match videoInfo closure with
  | None => ret ()
  | Some _ =>
      set (setDownloading true);;
      set (setError None);;
      set (setDownloadProgress (Some progress_starting));;
      emit (Math_random (random r));;
      let clientId := clientId (random r) in
      emit (new_WebSocket (WS_BASE c ++ str "/api/ws/" ++ clientId));;
      try_catch_finally
        (try_block c closure r clientId)
        catch_block
        (finally_block closure)
  end.

(** The callback handed to [setTimeout], line 133. *)
Definition timeout_callback : M unit := set (setDownloadProgress None).

(** The filter of [getQualityFormats]:
    [f.resolution && f.resolution !== "audio only"]. *)
Definition is_quality_format (f : VideoFormat) : bool :=
  match resolution f with
  | None => false
  | Some r => negb (bool_decide (r = [])) && negb (bool_decide (r = str "audio only"))
  end.

(** [getQualityFormats], lines 157-163: [filter] then [slice(0, 8)]. *)
Definition getQualityFormats (closure : State) : list VideoFormat :=
  match videoInfo closure with
  | None => []
  | Some info => take 8 (List.filter is_quality_format (formats info))
  end.

End App.

(* ===================================================================== *)
(** * Sample inputs                                                       *)
(* ===================================================================== *)

Module Samples.
Import JS App.

Definition localhost : Config := {| VITE_API_URL := None |}.

Definition format_720p : VideoFormat :=
  {| format_id := str "22"; format_note := str "720p"; ext := str "mp4";
     resolution := Some (str "1280x720"); filesize := None;
     acodec := str "mp4a.40.2"; vcodec := str "avc1.64001F" |}.

Definition format_audio : VideoFormat :=
  {| format_id := str "140"; format_note := str "medium"; ext := str "m4a";
     resolution := Some (str "audio only"); filesize := Some (str "3145728");
     acodec := str "mp4a.40.2"; vcodec := str "none" |}.

Definition format_unknown : VideoFormat :=
  {| format_id := str "sb0"; format_note := str "storyboard"; ext := str "mhtml";
     resolution := None; filesize := None;
     acodec := str "none"; vcodec := str "none" |}.

Definition sample_info : VideoInfo :=
  {| info_id := str "dQw4w9WgXcQ"; title := str "Sample"; thumbnail := str "t.jpg";
     duration := str "212"; uploader := str "someone";
     formats := [format_audio; format_720p; format_unknown] |}.

(** The page as first rendered, with some text typed into the input. *)
Definition typed (u : jsstring) : State :=
  {| url := u; loading := false; videoInfo := None; error := None;
     selectedFormat := str "best"; downloading := false;
     downloadProgress := None |}.

(** The page after the metadata of [u] was fetched. *)
Definition loaded (u : jsstring) : State :=
  {| url := u; loading := false; videoInfo := Some sample_info; error := None;
     selectedFormat := str "best"; downloading := false;
     downloadProgress := None |}.

(** A body of the shape the server sends on success (line 115). *)
Definition success_body : JsObject :=
  <[str "status" := JStr (str "success")]>
    (<[str "filename" := JStr (str "video.mp4")]>
       (<[str "download_url" := JStr (str "/files/video.mp4")]> ∅)).

(** The success body of the design document's scenario (section 8):
    [{status: "success", filename: "video.mp4", downloadUrl: "/files/video.mp4"}]. *)
Definition documented_success_body : JsObject :=
  <[str "status" := JStr (str "success")]>
    (<[str "filename" := JStr (str "video.mp4")]>
       (<[str "downloadUrl" := JStr (str "/files/video.mp4")]> ∅)).

(** A progress message as the server pushes it while downloading. *)
Definition progress_message : ChannelEvent :=
  message (Normal (JObj
    (<[str "status" := JStr (str "downloading")]>
       (<[str "percent" := JNum (str "42.5")]>
          (<[str "speed" := JNum (str "1048576")]>
             (<[str "eta" := JNum (str "12")]> ∅)))))).

(** The verdict of a browser on the addresses that these examples assign
    to [window.location.href]; they all start with the default [API_BASE]
    and hold no white space and no backslash.  After
    [http://localhost:8000] the URL parser wants the end of the address or
    the start of a path, a query or a fragment; anything else would have to
    be more of the port and is a failure.  The message is Chrome's. *)
Definition a_browser (address : jsstring) : option jsstring :=
  if bool_decide (take 21 address = str "http://localhost:8000")
     && match drop 21 address with
        | [] => true
        | ch :: _ => bool_decide (ch ∈ str "/?#")
        end
  then None
  else Some (str "Failed to set the 'href' property on 'Location': '"
             ++ address ++ str "' is not a valid URL.").

(** [Math.random()] returns [k / 2^53] and the request settles with an OK
    response carrying [body]; one progress message arrives meanwhile. *)
Definition answered (k : unit_double) (body : JsVal) : DownloadRun :=
  {| random := k;
     download_response := Normal {| ok := true; json := Normal body |};
     during_fetch := [progress_message];
     during_json := [];
     href_error := a_browser |}.

(** The same with a response that is not OK. *)
Definition refused (k : unit_double) (body : Completion JsVal) : DownloadRun :=
  {| random := k;
     download_response := Normal {| ok := false; json := body |};
     during_fetch := [];
     during_json := [];
     href_error := a_browser |}.

(** A Number [Math.random()] may return: 1112001536866471 / 2^53, about
    0.12346, whose rendering in radix 36 is ["0.4g00axnh83h"]. *)
Definition a_random_number : unit_double := 1112001536866471.

Definition a_video_url : jsstring := str "https://youtu.be/dQw4w9WgXcQ".

(** The Number 1/2, which [Math.random()] may return (4503599627370496 =
    2^52). *)
Definition one_half : unit_double := 4503599627370496.

(** The page after a download failed: video info loaded, an error shown,
    no progress. *)
Definition failed_before (u : jsstring) : State :=
  {| url := u; loading := false; videoInfo := Some sample_info;
     error := Some (str "Download failed"); selectedFormat := str "22";
     downloading := false; downloadProgress := None |}.

(** [Math.random()] returns [k / 2^53] and the request is rejected (the
    network is down); a channel error arrives meanwhile. *)
Definition unreachable (k : unit_double) : DownloadRun :=
  {| random := k;
     download_response := Throw (ErrorObject (str "Failed to fetch"));
     during_fetch := [channel_error];
     during_json := [];
     href_error := a_browser |}.

(** A url that cannot be encoded: it ends in a lone leading surrogate. *)
Definition a_broken_url : jsstring := str "https://youtu.be/" ++ [0xD83D].

(** The body of an [/api/info] response that carries [sample_info] (its
    scalar properties; the formats are left out of the parsed value, which
    the component only tests for truthiness and for [detail]). *)
Definition sample_body : InfoData :=
  {| data_value :=
       JObj (<[str "id" := JStr (str "dQw4w9WgXcQ")]>
               (<[str "title" := JStr (str "Sample")]>
                  (<[str "thumbnail" := JStr (str "t.jpg")]>
                     (<[str "duration" := JNum (str "212")]>
                        (<[str "uploader" := JStr (str "someone")]> ∅)))));
     data_info := sample_info |}.

(** What reading a value that is no video info through
    [interface VideoInfo] gives, as far as the record can tell: no
    formats. *)
Definition no_info : VideoInfo :=
  {| info_id := []; title := []; thumbnail := []; duration := str "NaN";
     uploader := []; formats := [] |}.

(** The body [null]. *)
Definition null_body : InfoData :=
  {| data_value := JNull; data_info := no_info |}.



End Samples.

(* ===================================================================== *)
(** * Vocabulary of the statements                                        *)
(* ===================================================================== *)

Module Vocabulary.
Import JS App.

(** The kinds of events, for statements about what a trace holds. *)
Inductive Kind :=
| a_random | an_open | a_request | a_body_read | a_navigation | a_close
| a_timer | a_console_line | a_setter_call.

#[global] Instance Kind_eq_dec : EqDecision Kind.
Proof. solve_decision. Defined.

Definition kind (e : Event) : Kind :=
  match e with
  | Math_random _ => a_random
  | new_WebSocket _ => an_open
  | fetch _ => a_request
  | response_json => a_body_read
  | location_href _ => a_navigation
  | ws_close => a_close
  | setTimeout _ => a_timer
  | console_error => a_console_line
  | set_state _ => a_setter_call
  end.

(** The events of the given kinds, in order. *)
Definition only (ks : list Kind) (tr : list Event) : list Event :=
  List.filter (fun e => bool_decide (kind e ∈ ks)) tr.

(** The first [n] entries of [l] that satisfy [P], in the order of [l]:
    the reading of "the first at most [n] entries whose ..." that
    [getQualityFormats] is compared with. *)
Fixpoint first_at_most {A} (n : nat) (P : A -> Prop) `{!∀ x, Decision (P x)}
    (l : list A) : list A :=
  match n, l with
  | O, _ => []
  | _, [] => []
  | S n', x :: l' =>
      if decide (P x) then x :: first_at_most n' P l'
      else first_at_most n P l'
  end.

(** A format whose resolution is non-null, non-empty and not
    ["audio only"]. *)
Definition has_video_resolution (f : VideoFormat) : Prop :=
  ∃ r, resolution f = Some r ∧ r ≠ [] ∧ r ≠ str "audio only".

#[global] Instance has_video_resolution_dec f : Decision (has_video_resolution f).
Proof.
  unfold has_video_resolution.
  destruct (resolution f) as [r|].
  - destruct (decide (r = [])) as [->|Hne].
    + right. intros (r' & Heq & Hn & _). by simplify_eq.
    + destruct (decide (r = str "audio only")) as [->|Hna].
      * right. intros (r' & Heq & _ & Hn). by simplify_eq.
      * left. by exists r.
  - right. by intros (r' & Heq & _).
Defined.

(** The cells a channel message cannot touch. *)
Definition same_but_progress (st st' : State) : Prop :=
  url st' = url st ∧ loading st' = loading st ∧ videoInfo st' = videoInfo st
  ∧ error st' = error st ∧ selectedFormat st' = selectedFormat st
  ∧ downloading st' = downloading st.

(** [m] only ever adds events of the kinds [ks] to the trace. *)
Definition emits {A} (ks : list Kind) (m : M A) : Prop :=
  ∀ w, ∃ res st' tr,
    m w = (res, {| state := st'; trace := trace w ++ tr |})
    ∧ Forall (fun e => kind e ∈ ks) tr.

(** What channel handlers add to a trace, and what the [try] and [catch]
    blocks add after the request was issued. *)
Definition channel_kinds : list Kind := [a_console_line; a_setter_call].

Definition body_kinds : list Kind :=
  [a_body_read; a_navigation; a_console_line; a_setter_call].

(** [handleDownload] up to the [try]: lines 84-92. *)
Definition started (st : State) : State :=
  apply_setter (setDownloadProgress (Some progress_starting))
    (apply_setter (setError None) (apply_setter (setDownloading true) st)).

Definition opening (c : Config) (r : DownloadRun) : list Event :=
  [set_state (setDownloading true); set_state (setError None);
   set_state (setDownloadProgress (Some progress_starting));
   Math_random (random r);
   new_WebSocket (WS_BASE c ++ str "/api/ws/" ++ clientId (random r))].

(** The events of the [finally] block. *)
Definition closing (st : State) : list Event :=
  set_state (setDownloading false) :: ws_close
  :: (if error_shown (error st) then [] else [setTimeout 3000]).

(** The effect of the [catch] block on a world. *)
Definition failed (err : Thrown) (w : World) : World :=
  {| state :=
       apply_setter (setDownloadProgress None)
         (apply_setter (setError (Some (message_or (str "Download failed") err)))
            (state w));
     trace :=
       trace w
       ++ [set_state (setError (Some (message_or (str "Download failed") err)));
           set_state (setDownloadProgress None)] |}.

End Vocabulary.

(* ===================================================================== *)
(** * The rest of the component: outcome, page and formatters             *)
(* ===================================================================== *)

Module Page.
Import JS App Vocabulary.

(** ** What a download call comes to *)

(** Lines 111-123 without the state: the address the handler navigates
    to, or what it throws. *)
Definition judge (c : Config) (r : DownloadRun) (response : Response JsVal)
    (data : JsVal) : Completion jsstring :=
  if negb (ok response) then
    match get data detail with
    | Normal d => Throw (thrown_by (new_Error (or_else d (JStr (str "Download failed")))))
    | Throw e => Throw e
    end
  else
    match get data status with
    | Throw e => Throw e
    | Normal s =>
        if strict_eq_string s (str "success") then
          match get data download_url with
          | Throw e => Throw e
          | Normal u =>
              if truthy u then
                match ToString u with
                | Throw e => Throw e
                | Normal path =>
                    match href_error r (API_BASE c ++ path) with
                    | Some msg => Throw (ErrorObject msg)
                    | None => Normal (API_BASE c ++ path)
                    end
                end
              else Throw (ErrorObject (str "Download failed - invalid response"))
          end
        else Throw (ErrorObject (str "Download failed - invalid response"))
    end.

(** The [try] block of lines 105-124 without the state and without the
    channel: how the request ends, from the url and from how the
    environment answers. *)
Definition verdict (c : Config) (st : State) (r : DownloadRun) : Completion jsstring :=
  match encode (url st) with
  | None => Throw (ErrorObject URIError_message)
  | Some _ =>
      match download_response r with
      | Throw e => Throw e
      | Normal response =>
          match json response with
          | Throw e => Throw e
          | Normal data => judge c r response data
          end
      end
  end.

(** The state cells after a call of [handleDownload] that ended in [v]. *)
Definition settled (st : State) (v : Completion jsstring) : State :=
  {| url := url st; loading := loading st; videoInfo := videoInfo st;
     error := match v with
              | Normal _ => None
              | Throw e => Some (message_or (str "Download failed") e)
              end;
     selectedFormat := selectedFormat st;
     downloading := false;
     downloadProgress := match v with
                         | Normal _ => Some progress_completed
                         | Throw _ => None
                         end |}.

(** What a call of [handleDownload] with video info loaded does to the
    outside, channel handlers and state setters apart: the token, the
    channel, the request if the url can be encoded, the body read if the
    request is answered, the navigation if the verdict is an address,
    the close, and the timer unless an error was shown when the call was
    made. *)
Definition outside (c : Config) (st : State) (r : DownloadRun) : list Event :=
  Math_random (random r)
  :: new_WebSocket (WS_BASE c ++ str "/api/ws/" ++ clientId (random r))
  :: match encode (url st) with
     | None => []
     | Some enc =>
         fetch (downloadUrl c enc (selectedFormat st) (clientId (random r)))
         :: match download_response r with
            | Throw _ => []
            | Normal _ =>
                response_json
                :: match verdict c st r with
                   | Normal address => [location_href address]
                   | Throw _ => []
                   end
            end
     end
  ++ ws_close :: (if error_shown (error st) then [] else [setTimeout 3000]).

(** The kinds of the events of [outside]. *)
Definition outside_kinds : list Kind :=
  [a_random; an_open; a_request; a_body_read; a_navigation; a_close; a_timer].

(** How a call of [fetchVideoInfo] with a url that is not blank ends, lines
    44-54 without the state: what [setVideoInfo] is given, or what is
    thrown. *)
Definition info_verdict (st : State) (r : InfoRun) : Completion (option VideoInfo) :=
  match encode (url st) with
  | None => Throw (ErrorObject URIError_message)
  | Some _ =>
      match info_response r with
      | Throw e => Throw e
      | Normal response =>
          match json response with
          | Throw e => Throw e
          | Normal data =>
              if negb (ok response) then
                match get (data_value data) detail with
                | Throw e => Throw e
                | Normal d =>
                    Throw (thrown_by
                             (new_Error
                                (or_else d (JStr (str "Failed to fetch video info")))))
                end
              else Normal (stored data)
          end
      end
  end.

(** ** The page: the controls the JSX of lines 165-311 renders *)

(** The url input (line 184), the Fetch button (line 192, [disabled] while
    loading), and inside [videoInfo && ...]: the Best button (line 244), one
    button per quality format (line 251), and, when [downloadProgress] is
    null, the Download button (line 281, [disabled] while downloading).
    [active] is the [formatBtnActive] class. *)
Inductive Control :=
| url_input
| fetch_button (disabled : bool)
| best_button (active : bool)
| format_button (f : VideoFormat) (active : bool)
| download_button (disabled : bool).

Definition controls (st : State) : list Control :=
  url_input :: fetch_button (loading st)
  :: match videoInfo st with
     | None => []
     | Some _ =>
         best_button (bool_decide (selectedFormat st = str "best"))
         :: ((fun f => format_button f (bool_decide (selectedFormat st = format_id f)))
               <$> getQualityFormats st)
         ++ match downloadProgress st with
            | Some _ => []
            | None => [download_button (downloading st)]
            end
     end.

(** [{error && (<div className="error">...{error}</div>)}], line 211. *)
Definition error_banner (st : State) : option jsstring :=
  if error_shown (error st) then error st else None.

(** The handlers that only set a cell: [onChange] of the input (line 189)
    and [onClick] of the Best and format buttons (lines 245 and 254). *)
Definition onChange (value : jsstring) (st : State) : State :=
  {| url := value; loading := loading st; videoInfo := videoInfo st;
     error := error st; selectedFormat := selectedFormat st;
     downloading := downloading st; downloadProgress := downloadProgress st |}.

Definition setSelectedFormat (fmt : jsstring) (st : State) : State :=
  {| url := url st; loading := loading st; videoInfo := videoInfo st;
     error := error st; selectedFormat := fmt;
     downloading := downloading st; downloadProgress := downloadProgress st |}.

(** The [onClick] of a control, for the controls whose [onClick] is a call
    of [setSelectedFormat].  The other controls are [None] here: the input
    has [onChange] and [onKeyDown], and the [onClick] of the Fetch and
    Download buttons are the handlers [fetchVideoInfo] and
    [handleDownload]. *)
Definition select (ctl : Control) : option (State -> State) :=
  match ctl with
  | best_button _ => Some (setSelectedFormat (str "best"))
  | format_button f _ => Some (setSelectedFormat (format_id f))
  | url_input | fetch_button _ | download_button _ => None
  end.

(** ** Characters *)

(** What [encodeURIComponent] lets through or produces: the unreserved
    characters and the percent sign of an escape. *)
Definition is_uri_char (c : N) : bool := is_unescaped c || (c =? 0x25).

(** The digits of radix 36: [0-9a-z]. *)
Definition is_lower_alnum (c : N) : bool :=
  ((0x30 <=? c) && (c <=? 0x39)) || ((0x61 <=? c) && (c <=? 0x7A)).

End Page.


(* ===================================================================== *)
(** * The formatters of the page, on whole numbers                        *)
(* ===================================================================== *)

From Stdlib Require Import DecimalN.

(** The four formatters of [App.tsx] for arguments that are whole numbers
    below 2^53.  Every such number is a Number, and on them the operations
    the formatters use are exact: [%] always is; a division by 1024 or by
    1024 * 1024 only changes the exponent; [Math.floor (n / 60)] and
    [Math.floor (n / 3600)] are the integer quotients, the quotient of the
    reals being at least 1/60 (1/3600) below the next whole number when it
    is not whole, which is more than half the distance between Numbers
    there (at most 2^-6 below 2^48, at most 2^-12 below 2^42);
    [Math.round] of a whole number is that number.  What the formatters do
    with other Numbers (fractions, NaN) is not modelled. *)
Module Format.
Import JS.

Fixpoint uint_units (d : Decimal.uint) : jsstring :=
  match d with
  | Decimal.Nil => []
  | Decimal.D0 d => 48 :: uint_units d
  | Decimal.D1 d => 49 :: uint_units d
  | Decimal.D2 d => 50 :: uint_units d
  | Decimal.D3 d => 51 :: uint_units d
  | Decimal.D4 d => 52 :: uint_units d
  | Decimal.D5 d => 53 :: uint_units d
  | Decimal.D6 d => 54 :: uint_units d
  | Decimal.D7 d => 55 :: uint_units d
  | Decimal.D8 d => 56 :: uint_units d
  | Decimal.D9 d => 57 :: uint_units d
  end.

(** [Number.prototype.toString()] and the string conversion of a template
    literal, for a whole number below 10^21: its decimal digits. *)
Definition decimal (n : N) : jsstring := uint_units (N.to_uint n).

(** [s.padStart(target, filler)] for a filler of one code unit. *)
Definition padStart (target : nat) (filler : N) (s : jsstring) : jsstring :=
  replicate (target - length s) filler ++ s.

(** [x.toFixed(f)] for the Number [x = num / 2^k] (ECMA-262,
    Number.prototype.toFixed, for [x < 10^21]): [n] is the integer for which
    [n / 10^f - x] is as close to zero as possible, the larger one if there
    are two; its digits are padded with zeros to [f + 1] places and the
    point is put before the last [f]. *)
Definition toFixed (f : nat) (num k : N) : jsstring :=
  let n := (2 * num * 10 ^ N.of_nat f + 2 ^ k) / 2 ^ (k + 1) in
  let m := decimal n in
  match f with
  | O => m
  | S _ =>
      let m := padStart (S f) 48 m in
      take (length m - f) m ++ str "." ++ drop (length m - f) m
  end.

(** Lines 67-71. *)
Definition formatSpeed (speed : N) : jsstring :=
  if speed =? 0 then str "0 MB/s"
  else toFixed 1 speed 20 ++ str " MB/s".

(** Lines 73-79. *)
Definition formatTime (seconds : N) : jsstring :=
  if seconds =? 0 then str "0s"
  else if seconds <? 60 then decimal seconds ++ str "s"
  else
    let mins := seconds / 60 in
    let secs := seconds mod 60 in
    decimal mins ++ str "m " ++ decimal secs ++ str "s".

(** Lines 138-146. *)
Definition formatDuration (seconds : N) : jsstring :=
  let hrs := seconds / 3600 in
  let mins := (seconds mod 3600) / 60 in
  let secs := seconds mod 60 in
  if 0 <? hrs then
    decimal hrs ++ str ":" ++ padStart 2 48 (decimal mins)
    ++ str ":" ++ padStart 2 48 (decimal secs)
  else decimal mins ++ str ":" ++ padStart 2 48 (decimal secs).

(** Lines 148-155; [None] is [null]. *)
Definition formatFileSize (bytes : option N) : jsstring :=
  match bytes with
  | None => str "Unknown"
  | Some bytes =>
      if bytes =? 0 then str "Unknown"
      else if 2 ^ 30 <? bytes then toFixed 2 bytes 30 ++ str " GB"
      else toFixed 2 bytes 20 ++ str " MB"
  end.

(** The value of a string of decimal digits. *)
Definition digits_value (s : jsstring) : N :=
  foldl (fun acc c => 10 * acc + (c - 48)) 0 s.

Definition is_digit (c : N) : bool := (48 <=? c) && (c <=? 57).

(** The numeral of [j] zeros. *)
Fixpoint zeros (j : nat) : Decimal.uint :=
  match j with
  | O => Decimal.Nil
  | S j => Decimal.D0 (zeros j)
  end.

End Format.
(* ===================================================================== *)
(** * Properties of the component                                         *)
(* ===================================================================== *)

Import JS App Samples Vocabulary Page.
#[local] Set Warnings "-clear-no-such-hyp".
#[local] Open Scope js_scope.


(** ** The runtime fragment on sample values *)

Example encodeURIComponent_of_an_address :
  encodeURIComponent (str "https://youtu.be/dQw4w9WgXcQ?t=1&list=a b")
  = Normal (str "https%3A%2F%2Fyoutu.be%2FdQw4w9WgXcQ%3Ft%3D1%26list%3Da%20b").
Proof. reflexivity. Qed.

(** U+00E9, U+20AC and the pair D83D DE00 (U+1F600) go out as their UTF-8
    octets; a lone surrogate is a URIError. *)
Example encodeURIComponent_beyond_ascii :
  encodeURIComponent [0x68; 0xE9; 0x20AC; 0xD83D; 0xDE00; 0x7E]
  = Normal (str "h%C3%A9%E2%82%AC%F0%9F%98%80~")
  ∧ encodeURIComponent [0x68; 0xD83D] = Throw (ErrorObject URIError_message)
  ∧ encodeURIComponent [0xDE00; 0x68] = Throw (ErrorObject URIError_message).
Proof. split_and!; reflexivity. Qed.

Example trim_strips_both_ends :
  trim ([0x20; 0x09; 0xA0] ++ str "a b" ++ [0x0A; 0x3000; 0xFEFF]) = str "a b"
  ∧ trim [0x20; 0x0D; 0x0A; 0x2003] = [].
Proof. split; reflexivity. Qed.

Example toString36_of_sample_numbers :
  toString36 0 = str "0"
  ∧ toString36 4503599627370496 = str "0.i"
  ∧ toString36 2251799813685248 = str "0.9"
  ∧ toString36 1112001536866471 = str "0.4g00axnh83h"
  ∧ toString36 4503599627370497 = str "0.i000000000d"
  ∧ toString36 9007199254740991 = str "0.zzzzzzzzzza"
  ∧ toString36 1 = str "0.0000000000em2djky0vz9".
Proof. split_and!; vm_compute; reflexivity. Qed.

Example ToString_of_an_array :
  ToString (JArr [JNum (str "1"); JNull; JArr [JStr (str "a"); JBool true]; JObj ∅])
  = Normal (str "1,,a,true,[object Object]")
  ∧ ToString (JArr []) = Normal []
  ∧ ToString (JArr [JStr (str "a"); JObj {[ str "toString" := JNull ]}])
    = Throw (ErrorObject cannot_convert_message).
Proof. split_and!; reflexivity. Qed.

(** ** The radix conversion ends *)

Lemma round53_lower (x : N) : 0 < x -> 2 ^ N.log2 x <= round53 x.
Proof.
  intros Hx.
  unfold round53. destruct (N.ltb_spec (N.log2 x) 53) as [Hlt|Hge].
  - by apply N.log2_spec.
  - set (b := N.log2 x) in *. set (shift := b - 52).
    assert (Hq : 2 ^ 52 <= N.shiftr x shift).
    { rewrite N.shiftr_div_pow2.
      apply N.div_le_lower_bound; [apply N.pow_nonzero; lia|].
      rewrite <- N.pow_add_r. replace (shift + 52) with b by (unfold shift; lia).
      by apply N.log2_spec. }
    rewrite N.shiftl_mul_pow2.
    replace b with (52 + shift) at 1 by (unfold shift; lia).
    rewrite N.pow_add_r. apply N.mul_le_mono_r.
    destruct (_ || _); lia.
Qed.

Lemma round53_times_36 (j delta : N) :
  2 ^ j <= delta -> 2 ^ (j + 5) <= round53 (delta * 36).
Proof.
  intros Hj.
  assert (0 < 2 ^ j) by (apply N.neq_0_lt_0, N.pow_nonzero; lia).
  etrans; [|apply round53_lower; lia].
  apply N.pow_le_mono_r; [lia|].
  apply N.log2_le_pow2; [lia|].
  rewrite N.pow_add_r. change (2 ^ 5) with 32. lia.
Qed.

(** Once [delta] has reached [2^j], at most [n] rounds are run when
    [106 <= j + 5 * n]: more fuel changes nothing. *)
Lemma fraction_digits_rounds (n : nat) :
  ∀ (m : nat) (j fraction delta : N) (written : list N),
    (1 <= n)%nat -> (n <= m)%nat ->
    2 ^ j <= delta ->
    106 <= j + 5 * N.of_nat n ->
    fraction_digits m fraction delta written
    = fraction_digits n fraction delta written.
Proof.
  induction n as [|n IH]; intros m j fraction delta written Hn Hm Hj Hbound; [lia|].
  destruct m as [|m]; [lia|].
  cbn [fraction_digits]. cbv zeta.
  set (fraction' := round53 (fraction * 36) - round53 (fraction * 36) / scale * scale).
  set (delta' := round53 (delta * 36)).
  destruct (_ && _); [done|].
  destruct (N.leb_spec delta' fraction') as [Hle|Hgt]; [|done].
  pose proof (round53_times_36 j delta Hj) as Hdelta'. fold delta' in Hdelta'.
  assert (Hfrac : fraction' < scale).
  { unfold fraction'. rewrite (N.mul_comm _ scale), <- N.Div0.mod_eq.
    by apply N.mod_lt. }
  destruct n as [|n].
  - exfalso. assert (scale <= 2 ^ (j + 5)); [|lia].
    unfold scale. apply N.pow_le_mono_r; lia.
  - apply (IH m (j + 5)); [lia|lia|done|lia].
Qed.

(** [toString36] does not depend on the number of rounds it allows itself,
    from 22 on. *)
Lemma toString36_rounds (k : unit_double) (m : nat) :
  (22 <= m)%nat ->
  fraction_digits m (k * 2 ^ 53) (2 ^ N.log2 k) []
  = fraction_digits 22 (k * 2 ^ 53) (2 ^ N.log2 k) [].
Proof.
  intros Hm. apply (fraction_digits_rounds 22 m (N.log2 k)); [lia|done|done|lia].
Qed.
(** ** [fetchVideoInfo] *)

(** C10.  For every url whose trimmed value is empty, [fetchVideoInfo] only
    calls [setError("Please enter a YouTube URL")]: it completes normally,
    performs no network request (the trace holds that one setter call and
    nothing else), never calls [setLoading] and leaves [videoInfo] and every
    other cell but [error] as it was. *)
Theorem fetchVideoInfo_blank_url (c : Config) (st : State) (r : InfoRun) :
  trim (url st) = [] ->
  run (fetchVideoInfo c st r) st
  = (Normal (),
     {| state :=
          {| url := url st; loading := loading st; videoInfo := videoInfo st;
             error := Some (str "Please enter a YouTube URL");
             selectedFormat := selectedFormat st;
             downloading := downloading st;
             downloadProgress := downloadProgress st |};
        trace := [set_state (setError (Some (str "Please enter a YouTube URL")))] |}).
Proof.
  intros Hblank. unfold run, fetchVideoInfo.
  rewrite bool_decide_eq_true_2 by exact Hblank.
  reflexivity.
Qed.

Lemma fetchVideoInfo_blank_url_witness :
  run (fetchVideoInfo localhost (typed (str "  ")) {| info_response := Throw NotAnError |})
      (typed (str "  "))
  = (Normal (),
     {| state :=
          {| url := str "  "; loading := false; videoInfo := None;
             error := Some (str "Please enter a YouTube URL");
             selectedFormat := str "best"; downloading := false;
             downloadProgress := None |};
        trace := [set_state (setError (Some (str "Please enter a YouTube URL")))] |}).
Proof.
  apply (fetchVideoInfo_blank_url localhost (typed (str "  "))
           {| info_response := Throw NotAnError |}).
  reflexivity.
Defined.

(** ** [getQualityFormats] *)

Lemma is_quality_format_spec (f : VideoFormat) :
  is_quality_format f = true <-> has_video_resolution f.
Proof.
  unfold is_quality_format, has_video_resolution.
  destruct (resolution f) as [r|]; split.
  - intros [H1 H2]%andb_prop.
    apply negb_true_iff, bool_decide_eq_false in H1, H2. by exists r.
  - intros (r' & [= <-] & H1 & H2).
    apply andb_true_intro; split; by apply negb_true_iff, bool_decide_eq_false.
  - discriminate.
  - by intros (r' & ? & _).
Qed.

Lemma take_filter_first_at_most (n : nat) (l : list VideoFormat) :
  take n (List.filter is_quality_format l)
  = first_at_most n has_video_resolution l.
Proof.
  revert n. induction l as [|f l IH]; intros n.
  - by destruct n.
  - destruct n as [|n].
    + reflexivity.
    + cbn [List.filter first_at_most].
      destruct (decide (has_video_resolution f)) as [Hf|Hf].
      * apply is_quality_format_spec in Hf. rewrite Hf. cbn. by rewrite IH.
      * destruct (is_quality_format f) eqn:E.
        -- by apply is_quality_format_spec in E.
        -- apply IH.
Qed.

Lemma filter_is_sublist {A} (p : A -> bool) (l : list A) :
  List.filter p l `sublist_of` l.
Proof.
  induction l as [|x l IH]; cbn.
  - constructor.
  - destruct (p x); by constructor.
Qed.

(** C9.  [getQualityFormats] returns the empty list when [videoInfo] is
    null; otherwise it returns the first at most 8 entries of
    [videoInfo.formats] whose resolution is non-null, non-empty and not
    ["audio only"]: an order-preserving subsequence of the formats, of
    length at most 8, all of whose entries have such a resolution. *)
Theorem getQualityFormats_first_eight (st : State) :
  match videoInfo st with
  | None => getQualityFormats st = []
  | Some info =>
      getQualityFormats st = first_at_most 8 has_video_resolution (formats info)
      ∧ getQualityFormats st `sublist_of` formats info
      ∧ Forall has_video_resolution (getQualityFormats st)
      ∧ (length (getQualityFormats st) <= 8)%nat
  end.
Proof.
  unfold getQualityFormats. destruct (videoInfo st) as [info|]; [|done].
  split_and!.
  - apply take_filter_first_at_most.
  - etrans; [apply sublist_take | apply filter_is_sublist].
  - apply Forall_take, Forall_forall. intros f Hf.
    apply is_quality_format_spec.
    apply list_elem_of_In, filter_In in Hf. tauto.
  - rewrite length_take. lia.
Qed.

(** ** The progress channel *)

Lemma onmessage_cases (parsed : Completion JsVal) (w : World) :
  (∃ m, parsed = Normal (JObj m)
        ∧ (m !! str "status" = Some (JStr (str "downloading"))
           ∨ m !! str "status" = Some (JStr (str "finished")))
        ∧ onmessage parsed w
          = (Normal (),
             {| state := apply_setter (MergeDownloadProgress (JObj m)) (state w);
                trace := trace w ++ [set_state (MergeDownloadProgress (JObj m))] |}))
  ∨ ((∀ m, parsed = Normal (JObj m) ->
           m !! str "status" ≠ Some (JStr (str "downloading"))
           ∧ m !! str "status" ≠ Some (JStr (str "finished")))
     ∧ snd (onmessage parsed w) = w).
Proof.
  destruct parsed as [data|e]; [|right; split; [intros ? [=] | done]].
  destruct data as [| |b|n|s|l|m];
    try (right; split; [intros ? [=] | done]).
  unfold onmessage, bind, lift, get, strict_eq_string, field_name, set. cbn.
  destruct (m !! str "status") as [v|] eqn:Hst; cbn.
  - destruct v as [| |b|n|s|l|m'];
      try (right; split; [intros ? [= <-]; rewrite Hst; split; congruence | done]).
    destruct (decide (s = str "downloading")) as [->|Hd].
    { left. exists m. rewrite bool_decide_eq_true_2 by done. eauto. }
    rewrite bool_decide_eq_false_2 by done.
    destruct (decide (s = str "finished")) as [->|Hf].
    { left. exists m. rewrite bool_decide_eq_true_2 by done. eauto. }
    rewrite bool_decide_eq_false_2 by done.
    right. split; [|done]. intros ? [= <-]. rewrite Hst. split; congruence.
  - right. split; [|done]. intros ? [= <-]. rewrite Hst. split; congruence.
Qed.

(** C8.  The message handler changes the state only through
    [setDownloadProgress], and only for an event whose status is
    ["downloading"] or ["finished"]: (1) if [downloadProgress] differs after
    the handler ran, the message was an object with one of these two
    statuses; (2) an event whose status is ["starting"] or ["error"] leaves
    the whole state and the trace as they were, so nothing is shown for a
    terminal error event; (3) no message, whatever it holds, changes
    [error] or any cell other than [downloadProgress]. *)
Theorem onmessage_only_progress_events :
  (∀ parsed w,
      downloadProgress (state (snd (onmessage parsed w))) ≠ downloadProgress (state w) ->
      ∃ m, parsed = Normal (JObj m)
           ∧ (m !! str "status" = Some (JStr (str "downloading"))
              ∨ m !! str "status" = Some (JStr (str "finished"))))
  ∧ (∀ m w,
      m !! str "status" = Some (JStr (str "starting"))
      ∨ m !! str "status" = Some (JStr (str "error")) ->
      snd (onmessage (Normal (JObj m)) w) = w)
  ∧ (∀ parsed w, same_but_progress (state w) (state (snd (onmessage parsed w)))).
Proof.
  split_and!.
  - intros parsed w Hne.
    destruct (onmessage_cases parsed w) as [(m & -> & Hs & _)|[_ Heq]].
    + eauto.
    + by rewrite Heq in Hne.
  - intros m w Hs.
    destruct (onmessage_cases (Normal (JObj m)) w) as [(m' & [= <-] & Hs' & _)|[_ Heq]].
    + destruct Hs as [Hs|Hs], Hs' as [Hs'|Hs']; rewrite Hs in Hs'; discriminate.
    + done.
  - intros parsed w.
    destruct (onmessage_cases parsed w) as [(m & -> & _ & ->)|[_ ->]];
      by repeat split.
Qed.

Lemma handle_spec (ev : ChannelEvent) (w : World) :
  ∃ st' tr,
    handle ev w = (Normal (), {| state := st'; trace := trace w ++ tr |})
    ∧ Forall (fun e => kind e ∈ channel_kinds) tr
    ∧ same_but_progress (state w) st'.
Proof.
  destruct ev as [parsed|]; unfold handle, dispatch.
  - destruct (onmessage_cases parsed w) as [(m & -> & _ & ->)|[_ ->]].
    + eexists _, [_]. split_and!; [done| |by repeat split].
      repeat constructor.
    + exists (state w), []. rewrite app_nil_r. destruct w; by repeat split.
  - exists (state w), [console_error]. split_and!; [done| |by repeat split].
    repeat constructor.
Qed.

Lemma same_but_progress_trans (a b c : State) :
  same_but_progress a b -> same_but_progress b c -> same_but_progress a c.
Proof. unfold same_but_progress. intros. destruct_and!. by repeat split; etrans. Qed.

Lemma deliver_spec (evs : list ChannelEvent) (w : World) :
  ∃ st' tr,
    deliver evs w = (Normal (), {| state := st'; trace := trace w ++ tr |})
    ∧ Forall (fun e => kind e ∈ channel_kinds) tr
    ∧ same_but_progress (state w) st'.
Proof.
  revert w. induction evs as [|ev evs IH]; intros w.
  - exists (state w), []. rewrite app_nil_r. destruct w; by repeat split.
  - cbn [deliver]. unfold bind at 1.
    destruct (handle_spec ev w) as (st1 & tr1 & -> & Htr1 & Hst1).
    destruct (IH {| state := st1; trace := trace w ++ tr1 |})
      as (st2 & tr2 & -> & Htr2 & Hst2).
    exists st2, (tr1 ++ tr2). cbn [trace state] in *. rewrite app_assoc.
    split_and!; [done|by apply Forall_app|by eapply same_but_progress_trans].
Qed.

(** ** Traces: which kinds of events a computation adds *)

Ltac kind_in := cbn [kind]; compute_done.

Lemma emits_lift {A} ks (c : Completion A) : emits ks (lift c).
Proof. intros [st tr]. exists c, st, []. by rewrite app_nil_r. Qed.

Lemma emits_ret {A} ks (a : A) : emits ks (ret a).
Proof. apply (emits_lift ks (Normal a)). Qed.

Lemma emits_throw {A} ks e : emits ks (throw (A:=A) e).
Proof. apply (emits_lift ks (Throw e)). Qed.

Lemma emits_emit ks e : kind e ∈ ks -> emits ks (emit e).
Proof.
  intros Hk w. exists (Normal ()), (state w), [e]. split; [done|]. by constructor.
Qed.

Lemma emits_set ks s : a_setter_call ∈ ks -> emits ks (set s).
Proof.
  intros Hk w. exists (Normal ()), (apply_setter s (state w)), [set_state s].
  split; [done|]. by constructor.
Qed.

Lemma emits_bind {A B} ks (m : M A) (k : A -> M B) :
  emits ks m -> (∀ a, emits ks (k a)) -> emits ks (bind m k).
Proof.
  intros Hm Hk w. unfold bind.
  destruct (Hm w) as (res & st1 & tr1 & -> & Htr1).
  destruct res as [a|e].
  - destruct (Hk a {| state := st1; trace := trace w ++ tr1 |})
      as (res2 & st2 & tr2 & -> & Htr2).
    exists res2, st2, (tr1 ++ tr2). cbn [trace]. rewrite app_assoc.
    split; [done|]. by apply Forall_app.
  - by exists (Throw e), st1, tr1.
Qed.

Lemma emits_deliver ks evs :
  a_console_line ∈ ks -> a_setter_call ∈ ks -> emits ks (deliver evs).
Proof.
  intros H1 H2 w. destruct (deliver_spec evs w) as (st' & tr & -> & Htr & _).
  exists (Normal ()), st', tr. split; [done|].
  eapply Forall_impl; [exact Htr|]. intros e He. cbn beta in He.
  apply elem_of_cons in He as [->|He]; [done|].
  apply list_elem_of_singleton in He as ->. done.
Qed.

Lemma emits_assign_href ks r address :
  a_navigation ∈ ks -> emits ks (assign_href r address).
Proof.
  intros Hk. unfold assign_href. destruct (href_error r address).
  - apply emits_throw.
  - by apply emits_emit.
Qed.

Ltac emits_tac :=
  repeat first
    [ apply emits_assign_href; kind_in
    | apply emits_bind; [|intros ?]
    | apply emits_lift | apply emits_ret | apply emits_throw
    | apply emits_emit; kind_in
    | apply emits_set; kind_in
    | apply emits_deliver; kind_in
    | match goal with |- emits _ (if ?b then _ else _) => destruct b end
    | match goal with
      | |- emits _ (match ?o with Some _ => _ | None => _ end) => destruct o
      end ].

Lemma use_response_emits c r response data :
  emits body_kinds (use_response c r response data).
Proof. unfold use_response, body_kinds. emits_tac. Qed.

(** ** Projections of a trace *)

Lemma only_nil ks : only ks [] = [].
Proof. reflexivity. Qed.

Lemma only_app ks l1 l2 : only ks (l1 ++ l2) = only ks l1 ++ only ks l2.
Proof. apply List.filter_app. Qed.

Lemma only_cons_in ks e l : kind e ∈ ks -> only ks (e :: l) = e :: only ks l.
Proof. intros H. unfold only. cbn [List.filter]. by rewrite bool_decide_eq_true_2. Qed.

Lemma only_cons_out ks e l : kind e ∉ ks -> only ks (e :: l) = only ks l.
Proof. intros H. unfold only. cbn [List.filter]. by rewrite bool_decide_eq_false_2. Qed.

Lemma only_none ks ks' l :
  Forall (fun e => kind e ∈ ks') l ->
  Forall (fun k => k ∉ ks) ks' ->
  only ks l = [].
Proof.
  intros Hl Hdisj. induction Hl as [|e l He _ IH]; [done|].
  rewrite only_cons_out; [done|].
  rewrite Forall_forall in Hdisj. by apply Hdisj.
Qed.

Ltac only_tac :=
  repeat first
    [ rewrite only_app
    | rewrite only_nil
    | rewrite only_cons_in by kind_in
    | rewrite only_cons_out by kind_in
    | erewrite only_none by (first [eassumption | compute_done]) ];
  rewrite ?app_nil_r; cbn [app].

(** ** The shape of every run of [handleDownload] *)

Lemma try_block_trace c st r tok w :
  ∃ res st' tr,
    try_block c st r tok w = (res, {| state := st'; trace := trace w ++ tr |})
    ∧ match encode (url st) with
      | None => tr = []
      | Some enc =>
          ∃ tr', tr = fetch (downloadUrl c enc (selectedFormat st) tok) :: tr'
                 ∧ Forall (fun e => kind e ∈ body_kinds) tr'
      end.
Proof.
  unfold try_block, encodeURIComponent.
  destruct (encode (url st)) as [enc|].
  - unfold bind at 1, lift at 1. unfold bind at 1, emit at 1.
    set (m := bind (deliver (during_fetch r)) _).
    assert (Hm : emits body_kinds m).
    { subst m. repeat (apply emits_bind; [|intros ?]);
        first [apply use_response_emits | unfold body_kinds; emits_tac]. }
    match goal with |- context [m ?w0] =>
      destruct (Hm w0) as (res & st' & tr' & -> & Htr')
    end.
    exists res, st', (fetch (downloadUrl c enc (selectedFormat st) tok) :: tr').
    cbn [trace]. rewrite <- app_assoc. split; [done|]. by exists tr'.
  - destruct w. eexists _, _, []. rewrite app_nil_r. cbn. done.
Qed.

Lemma handleDownload_unfold c st r info :
  videoInfo st = Some info ->
  run (handleDownload c st r) st
  = let '(res, w1) :=
      try_block c st r (clientId (random r))
        {| state := started st; trace := opening c r |} in
    let w2 := match res with Normal _ => w1 | Throw err => failed err w1 end in
    (Normal (),
     {| state := apply_setter (setDownloading false) (state w2);
        trace := trace w2 ++ closing st |}).
Proof.
  intros Hinfo. unfold run, handleDownload. rewrite Hinfo.
  unfold try_catch_finally, catch_block, finally_block.
  unfold bind at 1 2 3 4 5, set at 1 2 3, emit at 1 2. cbn [state trace app].
  fold (started st). fold (opening c r).
  destruct (try_block c st r (clientId (random r))
              {| state := started st; trace := opening c r |}) as [[[]|err] w1];
    unfold bind, set, emit, ret, closing, failed; cbn [state trace];
    destruct (error_shown (error st)); cbn [negb state trace];
    rewrite <- ?app_assoc; reflexivity.
Qed.

Lemma handleDownload_shape c st r info :
  videoInfo st = Some info ->
  ∃ w mid,
    run (handleDownload c st r) st = (Normal (), w)
    ∧ trace w = opening c r ++ mid ++ closing st
    ∧ match encode (url st) with
      | None => Forall (fun e => kind e ∈ body_kinds) mid
      | Some enc =>
          ∃ mid',
            mid = fetch (downloadUrl c enc (selectedFormat st) (clientId (random r))) :: mid'
            ∧ Forall (fun e => kind e ∈ body_kinds) mid'
      end.
Proof.
  intros Hinfo. rewrite (handleDownload_unfold _ _ _ _ Hinfo).
  destruct (try_block_trace c st r (clientId (random r))
              {| state := started st; trace := opening c r |})
    as (res & st1 & tr & -> & Htr).
  cbn [state trace] in *.
  destruct res as [[]|err]; unfold failed; cbn [state trace].
  - eexists _, tr. split; [reflexivity|]. cbn [trace].
    rewrite <- app_assoc. split; [reflexivity|].
    destruct (encode (url st)); [done|]. subst tr. constructor.
  - eexists _, (tr ++ [set_state (setError (Some (message_or (str "Download failed") err)));
                       set_state (setDownloadProgress None)]).
    split; [reflexivity|]. cbn [trace].
    rewrite <- !app_assoc. split; [reflexivity|].
    destruct (encode (url st)) as [enc|].
    + destruct Htr as (tr' & -> & Htr'). eexists. split; [reflexivity|].
      apply Forall_app. split; [done|].
      repeat apply Forall_cons_2; try apply Forall_nil_2; kind_in.
    + subst tr. repeat apply Forall_cons_2; try apply Forall_nil_2; kind_in.
Qed.

Lemma handleDownload_idle c st r :
  videoInfo st = None ->
  run (handleDownload c st r) st = (Normal (), {| state := st; trace := [] |}).
Proof. intros H. unfold run, handleDownload. by rewrite H. Qed.

(** C6.  Every call of [handleDownload] completes, and whenever it opens
    the progress channel (always, unless no video info is loaded, in which
    case the call does nothing at all) it closes it exactly once, after the
    download request has settled: the trace splits around the one
    [ws.close()] so that the one [new WebSocket] lies before it and no
    request, body read, navigation, channel opening or second close comes
    after it.  This holds for every way the request can settle or fail to
    be issued. *)
Theorem handleDownload_closes_channel (c : Config) (st : State) (r : DownloadRun) :
  ∃ w, run (handleDownload c st r) st = (Normal (), w)
    ∧ match videoInfo st with
      | None => trace w = []
      | Some _ =>
          ∃ before after,
            trace w = before ++ ws_close :: after
            ∧ only [an_open] before
              = [new_WebSocket (WS_BASE c ++ str "/api/ws/" ++ clientId (random r))]
            ∧ only [a_close] before = []
            ∧ only [an_open; a_request; a_body_read; a_navigation; a_close] after = []
      end.
Proof.
  destruct (videoInfo st) as [info|] eqn:Hinfo.
  - destruct (handleDownload_shape c st r info Hinfo) as (w & mid & Hrun & Htr & Hmid).
    exists w. split; [done|].
    exists (opening c r ++ mid ++ [set_state (setDownloading false)]),
      (if error_shown (error st) then [] else [setTimeout 3000]).
    split_and!.
    + rewrite Htr. unfold closing. by rewrite <- !app_assoc.
    + unfold opening.
      destruct (encode (url st)) as [enc|]; [destruct Hmid as (mid' & -> & Hmid)|];
        by only_tac.
    + unfold opening.
      destruct (encode (url st)) as [enc|]; [destruct Hmid as (mid' & -> & Hmid)|];
        by only_tac.
    + destruct (error_shown (error st)); by only_tac.
  - eexists. split; [by apply handleDownload_idle|done].
Qed.
(** ** What a download call comes to *)

Lemma bind_ext {A B} (m : M A) (k1 k2 : A -> M B) w :
  (∀ a w', k1 a w' = k2 a w') -> bind m k1 w = bind m k2 w.
Proof. intros H. unfold bind. destruct (m w) as [[a|e] w']; [apply H|done]. Qed.

Lemma bind_lift_Normal {A B} (a : A) (k : A -> M B) w :
  bind (lift (Normal a)) k w = k a w.
Proof. reflexivity. Qed.

Lemma use_response_judge c r resp data w :
  ∃ st' tr,
    same_but_progress (state w) st'
    ∧ Forall (fun e => kind e ∈ [a_setter_call]) tr
    ∧ use_response c r resp data w
      = match judge c r resp data with
        | Normal address =>
            (Normal (),
             {| state := apply_setter (setDownloadProgress (Some progress_completed))
                           (state w);
                trace := trace w
                         ++ [set_state (setDownloadProgress (Some progress_completed));
                             location_href address] |})
        | Throw e => (Throw e, {| state := st'; trace := trace w ++ tr |})
        end.
Proof.
  assert (Hsame : ∃ st' tr,
             same_but_progress (state w) st'
             ∧ Forall (fun e => kind e ∈ [a_setter_call]) tr
             ∧ w = {| state := st'; trace := trace w ++ tr |}).
  { exists (state w), []. rewrite app_nil_r. destruct w. by repeat split. }
  assert (Hset : ∃ st' tr,
             same_but_progress (state w) st'
             ∧ Forall (fun e => kind e ∈ [a_setter_call]) tr
             ∧ {| state := apply_setter (setDownloadProgress (Some progress_completed))
                             (state w);
                  trace := trace w
                           ++ [set_state (setDownloadProgress (Some progress_completed))] |}
               = {| state := st'; trace := trace w ++ tr |}).
  { exists (apply_setter (setDownloadProgress (Some progress_completed)) (state w)),
      [set_state (setDownloadProgress (Some progress_completed))].
    split_and!; [by repeat split|repeat constructor|reflexivity]. }
  unfold use_response, judge, assign_href, bind, lift, ret, throw, set, emit.
  destruct (negb (ok resp)).
  - destruct Hsame as (st' & tr & H1 & H2 & H3). exists st', tr.
    split_and!; [done..|]. rewrite <- H3.
    destruct (get data detail) as [d|e]; [|done].
    by destruct (new_Error _).
  - destruct (get data status) as [s|e].
    2:{ destruct Hsame as (st' & tr & H1 & H2 & H3). exists st', tr.
        split_and!; [done..|]. by rewrite <- H3. }
    destruct (strict_eq_string s (str "success")).
    2:{ destruct Hsame as (st' & tr & H1 & H2 & H3). exists st', tr.
        split_and!; [done..|]. by rewrite <- H3. }
    destruct (get data download_url) as [u|e].
    2:{ destruct Hsame as (st' & tr & H1 & H2 & H3). exists st', tr.
        split_and!; [done..|]. by rewrite <- H3. }
    destruct (truthy u).
    2:{ destruct Hsame as (st' & tr & H1 & H2 & H3). exists st', tr.
        split_and!; [done..|]. by rewrite <- H3. }
    destruct Hset as (st' & tr & H1 & H2 & H3). exists st', tr.
    split_and!; [done..|]. rewrite <- H3. cbn [state trace].
    destruct (ToString u) as [path|e]; [|done].
    destruct (href_error r (API_BASE c ++ path)); [done|].
    cbn [state trace]. by rewrite <- app_assoc.
Qed.

(** A request that was issued and rejected. *)
Lemma try_block_rejected c st r tok w enc e :
  encode (url st) = Some enc ->
  download_response r = Throw e ->
  ∃ st1 tr1,
    same_but_progress (state w) st1
    ∧ Forall (fun e => kind e ∈ channel_kinds) tr1
    ∧ try_block c st r tok w
      = (Throw e,
         {| state := st1;
            trace := trace w
                     ++ fetch (downloadUrl c enc (selectedFormat st) tok) :: tr1 |}).
Proof.
  intros Henc Hresp. unfold try_block, encodeURIComponent. rewrite Henc, Hresp.
  rewrite bind_lift_Normal.
  unfold bind at 1, emit at 1. unfold bind at 1.
  match goal with |- context [deliver (during_fetch r) ?w0] =>
    destruct (deliver_spec (during_fetch r) w0) as (st1 & tr1 & -> & Htr1 & Hst1) end.
  cbn [state trace] in *. exists st1, tr1. split_and!; [done..|].
  unfold bind, lift. by rewrite <- app_assoc.
Qed.

Lemma try_block_unencodable c st r tok w :
  encode (url st) = None ->
  try_block c st r tok w = (Throw (ErrorObject URIError_message), w).
Proof.
  intros Henc. unfold try_block, encodeURIComponent. by rewrite Henc.
Qed.

(** A request that was issued and answered, with the channel events of the
    two [await]s apart. *)
Lemma try_block_answered c st r tok w enc resp :
  encode (url st) = Some enc ->
  download_response r = Normal resp ->
  ∃ st1 tr1 tr2,
    same_but_progress (state w) st1
    ∧ Forall (fun e => kind e ∈ channel_kinds) tr1
    ∧ Forall (fun e => kind e ∈ channel_kinds) tr2
    ∧ try_block c st r tok w
      = bind (lift (json resp)) (use_response c r resp)
          {| state := st1;
             trace := trace w
                      ++ fetch (downloadUrl c enc (selectedFormat st) tok)
                         :: tr1 ++ response_json :: tr2 |}.
Proof.
  intros Henc Hresp. unfold try_block, encodeURIComponent. rewrite Henc, Hresp.
  rewrite bind_lift_Normal.
  unfold bind at 1, emit at 1. unfold bind at 1.
  match goal with |- context [deliver (during_fetch r) ?w0] =>
    destruct (deliver_spec (during_fetch r) w0) as (st1 & tr1 & -> & Htr1 & Hst1) end.
  rewrite bind_lift_Normal.
  unfold bind at 1, emit at 1. unfold bind at 1.
  match goal with |- context [deliver (during_json r) ?w0] =>
    destruct (deliver_spec (during_json r) w0) as (st2 & tr2 & -> & Htr2 & Hst2) end.
  cbn [state trace] in *.
  exists st2, tr1, tr2. split_and!; [by eapply same_but_progress_trans|done..|].
  by rewrite <- !app_assoc.
Qed.

Ltac channel_only :=
  repeat first
    [ rewrite only_app
    | rewrite only_nil
    | rewrite only_cons_in by kind_in
    | rewrite only_cons_out by kind_in
    | rewrite (only_none _ channel_kinds) by (first [assumption | compute_done]) ];
  rewrite ?app_nil_r; cbn [app].

(** The world a call of [handleDownload] ends in: the state is [settled]
    from the verdict alone, and what is done to the outside is [outside]. *)
Lemma handleDownload_final c st r info :
  videoInfo st = Some info ->
  ∃ w,
    run (handleDownload c st r) st = (Normal (), w)
    ∧ state w = settled st (verdict c st r)
    ∧ only outside_kinds (trace w) = outside c st r.
Proof.
  intros Hinfo. rewrite (handleDownload_unfold _ _ _ _ Hinfo).
  unfold outside, outside_kinds, verdict.
  assert (Hstate : ∀ st1 st2 (v : Completion jsstring),
             same_but_progress (started st) st1 ->
             same_but_progress st1 st2 ->
             apply_setter (setDownloading false)
               (match v with
                | Normal _ =>
                    apply_setter (setDownloadProgress (Some progress_completed)) st1
                | Throw e =>
                    apply_setter (setDownloadProgress None)
                      (apply_setter
                         (setError (Some (message_or (str "Download failed") e))) st2)
                end)
             = settled st v).
  { intros st1 st2 v (H1 & H2 & H3 & H4 & H5 & H6) (G1 & G2 & G3 & G4 & G5 & G6).
    destruct st1, st2; cbn in *; subst. by destruct v. }
  assert (Hrefl : ∀ s, same_but_progress s s) by (intros s; by repeat split).
  destruct (encode (url st)) as [enc|] eqn:Henc.
  - destruct (download_response r) as [resp|e] eqn:Hresp.
    + destruct (try_block_answered c st r (clientId (random r))
                  {| state := started st; trace := opening c r |} enc resp Henc Hresp)
        as (st1 & tr1 & tr2 & Hst1 & Htr1 & Htr2 & ->).
      cbn [state trace] in *.
      destruct (json resp) as [data|e].
      * rewrite bind_lift_Normal.
        match goal with |- context [use_response c r resp data ?w0] =>
          destruct (use_response_judge c r resp data w0)
            as (st2 & tr3 & Hst2 & Htr3 & ->) end.
        cbn [state trace] in *.
        destruct (judge c r resp data) as [address|e]; eexists; (split; [reflexivity|]);
          unfold failed, opening, closing; cbn [state trace].
        -- split; [by rewrite <- (Hstate st1 st1 (Normal address))|].
           destruct (error_shown (error st)); by channel_only.
        -- split; [by rewrite <- (Hstate st1 st2 (Throw e))|].
           assert (Forall (fun e => kind e ∈ channel_kinds) tr3).
           { eapply Forall_impl; [exact Htr3|]. intros x Hx. cbn beta in Hx.
             apply list_elem_of_singleton in Hx as ->. compute_done. }
           destruct (error_shown (error st)); by channel_only.
      * eexists. split; [reflexivity|].
        unfold failed, opening, closing; cbn [state trace].
        split; [by rewrite <- (Hstate st1 st1 (Throw e))|].
        destruct (error_shown (error st)); by channel_only.
    + destruct (try_block_rejected c st r (clientId (random r))
                  {| state := started st; trace := opening c r |} enc e Henc Hresp)
        as (st1 & tr1 & Hst1 & Htr1 & ->).
      cbn [state trace] in *. eexists. split; [reflexivity|].
      unfold failed, opening, closing; cbn [state trace].
      split; [by rewrite <- (Hstate st1 st1 (Throw e))|].
      destruct (error_shown (error st)); by channel_only.
  - rewrite try_block_unencodable by done. eexists. split; [reflexivity|].
    unfold failed, opening, closing; cbn [state trace].
    split; [by rewrite <- (Hstate (started st) (started st)
                              (Throw (ErrorObject URIError_message)))|].
    destruct (error_shown (error st)); by channel_only.
Qed.

Lemma only_only ks ks' l :
  Forall (fun k => k ∈ ks') ks -> only ks (only ks' l) = only ks l.
Proof.
  intros Hsub. induction l as [|e l IH]; [done|].
  destruct (decide (kind e ∈ ks')) as [Hin|Hout].
  - rewrite (only_cons_in ks' e l Hin).
    destruct (decide (kind e ∈ ks)) as [Hin'|Hout'].
    + by rewrite !only_cons_in, IH.
    + by rewrite !only_cons_out, IH.
  - rewrite (only_cons_out ks' e l Hout), IH.
    rewrite only_cons_out; [done|]. intros Hin. apply Hout.
    rewrite Forall_forall in Hsub. by apply Hsub.
Qed.

(** The projection of the outside events of a call on some of their
    kinds. *)
Lemma handleDownload_only ks c st r info :
  videoInfo st = Some info ->
  Forall (fun k => k ∈ outside_kinds) ks ->
  only ks (trace (snd (run (handleDownload c st r) st))) = only ks (outside c st r).
Proof.
  intros Hinfo Hks.
  destruct (handleDownload_final c st r info Hinfo) as (w & -> & _ & Hout).
  cbn [snd]. by rewrite <- Hout, only_only.
Qed.

Lemma handleDownload_request c st r info :
  videoInfo st = Some info ->
  only [a_request] (trace (snd (run (handleDownload c st r) st)))
  = match encode (url st) with
    | Some enc => [fetch (downloadUrl c enc (selectedFormat st) (clientId (random r)))]
    | None => []
    end.
Proof.
  intros Hinfo.
  erewrite handleDownload_only; [|exact Hinfo|compute_done].
  unfold outside. destruct (encode (url st)) as [enc|].
  - destruct (download_response r) as [resp'|e];
      [destruct (verdict c st r)|]; destruct (error_shown _); by only_tac.
  - destruct (error_shown _); by only_tac.
Qed.

(** ** The Download button *)

Lemma download_button_rendered st d :
  download_button d ∈ controls st
  <-> videoInfo st ≠ None ∧ downloadProgress st = None ∧ d = downloading st.
Proof.
  unfold controls. rewrite !elem_of_cons.
  destruct (videoInfo st) as [info|].
  - rewrite elem_of_cons, elem_of_app, list_elem_of_fmap.
    destruct (downloadProgress st) as [p|].
    + split.
      * intros [?|[?|[?|[(f & ? & _)|?%elem_of_nil]]]]; done.
      * by intros (_ & ? & _).
    + rewrite list_elem_of_singleton. split.
      * intros [?|[?|[?|[(f & ? & _)|[= ->]]]]]; done.
      * intros (_ & _ & ->). eauto 10.
  - rewrite elem_of_nil. split.
    + intros [?|[?|?]]; done.
    + by intros (? & _).
Qed.

(** ** The client token *)

(** C1.  In every call of [handleDownload] the page can make (it calls the
    handler from the Download button only, which it renders only with video
    info loaded), exactly one token is generated, before any connection is
    opened, and this one token is the last path segment of the progress
    channel's address and the [client_id] parameter of the download
    request: the random draws, channel openings and requests of the call
    are, in order, the one [Math.random()], the one [new WebSocket] at
    [WS_BASE/api/ws/<token>] and the one [fetch] whose address ends in
    [&client_id=<token>].  The request is issued unless the url cannot be
    encoded; then the call draws its token and opens the channel, and
    issues no request. *)
Theorem handleDownload_one_token (c : Config) (st : State) (r : DownloadRun)
    (info : VideoInfo) :
  videoInfo st = Some info ->
  only [a_random; an_open; a_request] (trace (snd (run (handleDownload c st r) st)))
  = Math_random (random r)
    :: new_WebSocket (WS_BASE c ++ str "/api/ws/" ++ clientId (random r))
    :: match encode (url st) with
       | Some enc =>
           [fetch (API_BASE c ++ str "/api/download?url=" ++ enc
                   ++ str "&format_id=" ++ selectedFormat st
                   ++ str "&client_id=" ++ clientId (random r))]
       | None => []
       end.
Proof.
  intros Hinfo.
  destruct (handleDownload_shape c st r info Hinfo) as (w & mid & -> & Htr & Hmid).
  cbn [snd]. rewrite Htr. unfold opening, closing.
  destruct (encode (url st)) as [enc|]; [destruct Hmid as (mid' & -> & Hmid)|];
    destruct (error_shown (error st)); by only_tac.
Qed.

Lemma handleDownload_one_token_witness :
  only [a_random; an_open; a_request]
    (trace (snd (run (handleDownload localhost (loaded a_video_url)
                        (answered a_random_number (JObj success_body)))
                     (loaded a_video_url))))
  = [Math_random a_random_number;
     new_WebSocket (str "ws://localhost:8000/api/ws/xnh83h");
     fetch (str "http://localhost:8000/api/download?url=https%3A%2F%2Fyoutu.be%2FdQw4w9WgXcQ&format_id=best&client_id=xnh83h")].
Proof.
  rewrite (handleDownload_one_token localhost (loaded a_video_url)
             (answered a_random_number (JObj success_body)) sample_info eq_refl).
  vm_compute. reflexivity.
Defined.

(** C1, as stated, fails for a url that cannot be encoded.  The page with
    video info loaded and the input edited to such a url renders the
    Download button; the call made from it draws its token and opens the
    channel under it, and then issues no download request at all, so the
    token is the [client_id] of no request. *)
Lemma handleDownload_unencodable_no_request :
  loaded a_broken_url = onChange a_broken_url (loaded a_video_url)
  ∧ download_button false ∈ controls (loaded a_broken_url)
  ∧ only [a_random; an_open; a_request]
      (trace (snd (run (handleDownload localhost (loaded a_broken_url)
                          (answered a_random_number (JObj success_body)))
                       (loaded a_broken_url))))
    = [Math_random a_random_number;
       new_WebSocket (str "ws://localhost:8000/api/ws/xnh83h")].
Proof.
  split_and!; [reflexivity| |vm_compute; reflexivity].
  apply download_button_rendered. by repeat split.
Qed.

(** ** The addresses the client uses *)

Lemma fetchVideoInfo_requests c st r :
  only [a_request] (trace (snd (run (fetchVideoInfo c st r) st)))
  = if bool_decide (trim (url st) = []) then []
    else match encode (url st) with
         | Some enc => [fetch (API_BASE c ++ str "/api/info?url=" ++ enc)]
         | None => []
         end.
Proof.
  unfold run, fetchVideoInfo. destruct (bool_decide (trim (url st) = [])).
  - reflexivity.
  - unfold try_catch_finally, encodeURIComponent, bind, set, emit, lift, throw, ret.
    cbn [state trace app snd].
    destruct (encode (url st)) as [enc|]; cbn [state trace app snd].
    + destruct (info_response r) as [resp|e]; cbn [state trace app snd].
      * destruct (json resp) as [data|e]; cbn [state trace app snd];
          [destruct (ok resp); cbn [negb state trace app snd];
           [|destruct (get (data_value data) detail) as [d|e];
             [destruct (new_Error _)|]; cbn [state trace app snd]]|];
          by only_tac.
      * by only_tac.
    + by only_tac.
Qed.

Lemma use_response_reads c r1 r2 j1 j2 d1 d2 w :
  href_error r1 = href_error r2 ->
  get d1 status = get d2 status ->
  get d1 download_url = get d2 download_url ->
  use_response c r1 {| ok := true; json := j1 |} d1 w
  = use_response c r2 {| ok := true; json := j2 |} d2 w.
Proof.
  intros Hh Hs Hu. unfold use_response, assign_href, bind, lift, ret. cbn [ok negb].
  rewrite Hs, Hu, Hh. reflexivity.
Qed.

Lemma try_block_reads c st k evs1 evs2 h d1 d2 tok w :
  get d1 status = get d2 status ->
  get d1 download_url = get d2 download_url ->
  try_block c st
    {| random := k; download_response := Normal {| ok := true; json := Normal d1 |};
       during_fetch := evs1; during_json := evs2; href_error := h |} tok w
  = try_block c st
      {| random := k; download_response := Normal {| ok := true; json := Normal d2 |};
         during_fetch := evs1; during_json := evs2; href_error := h |} tok w.
Proof.
  intros Hs Hu. unfold try_block.
  cbn [during_fetch during_json download_response].
  apply bind_ext; intros enc w1.
  apply bind_ext; intros [] w2.
  apply bind_ext; intros [] w3.
  rewrite !bind_lift_Normal.
  apply bind_ext; intros [] w4.
  apply bind_ext; intros [] w5.
  cbn [json]. rewrite !bind_lift_Normal.
  by apply use_response_reads.
Qed.

(** C3.  What the client addresses, under the names it really uses.
    (1) Metadata: the only request of [fetchVideoInfo] is a GET of
    [API_BASE/api/info?url=<encoded url>] (none for a blank or unencodable
    url).  (2) Progress channel and download: [handleDownload] opens
    [WS_BASE/api/ws/<token>] and then requests
    [API_BASE/api/download?url=<encoded url>&format_id=<format>&client_id=<token>].
    (3) Of the body of an OK response the handler reads [status] and
    [download_url] and nothing else: two bodies that agree on these two
    properties lead to the same result, state and trace; [filename] is not
    read. *)
Theorem client_addresses (c : Config) :
  (∀ st r,
      only [a_request] (trace (snd (run (fetchVideoInfo c st r) st)))
      = if bool_decide (trim (url st) = []) then []
        else match encode (url st) with
             | Some enc => [fetch (API_BASE c ++ str "/api/info?url=" ++ enc)]
             | None => []
             end)
  ∧ (∀ st r,
      only [an_open; a_request] (trace (snd (run (handleDownload c st r) st)))
      = match videoInfo st with
        | None => []
        | Some _ =>
            new_WebSocket (WS_BASE c ++ str "/api/ws/" ++ clientId (random r))
            :: match encode (url st) with
               | Some enc =>
                   [fetch (API_BASE c ++ str "/api/download?url=" ++ enc
                           ++ str "&format_id=" ++ selectedFormat st
                           ++ str "&client_id=" ++ clientId (random r))]
               | None => []
               end
        end)
  ∧ (∀ st k evs1 evs2 h d1 d2,
      get d1 status = get d2 status ->
      get d1 download_url = get d2 download_url ->
      run (handleDownload c st
             {| random := k;
                download_response := Normal {| ok := true; json := Normal d1 |};
                during_fetch := evs1; during_json := evs2; href_error := h |}) st
      = run (handleDownload c st
               {| random := k;
                  download_response := Normal {| ok := true; json := Normal d2 |};
                  during_fetch := evs1; during_json := evs2; href_error := h |}) st).
Proof.
  split_and!.
  - apply fetchVideoInfo_requests.
  - intros st r. destruct (videoInfo st) as [info|] eqn:Hinfo.
    + destruct (handleDownload_shape c st r info Hinfo) as (w & mid & -> & Htr & Hmid).
      cbn [snd]. rewrite Htr. unfold opening, closing.
      destruct (encode (url st)) as [enc|]; [destruct Hmid as (mid' & -> & Hmid)|];
        destruct (error_shown (error st)); by only_tac.
    + by rewrite handleDownload_idle.
  - intros st k evs1 evs2 h d1 d2 Hs Hu.
    destruct (videoInfo st) as [info|] eqn:Hinfo.
    + rewrite !(handleDownload_unfold _ _ _ _ Hinfo). cbn [random].
      by rewrite (try_block_reads c st k evs1 evs2 h d1 d2 _ _ Hs Hu).
    + by rewrite !handleDownload_idle.
Qed.

(** C3, as stated, fails: on a page with video info loaded the channel and
    the request go to [/api/ws/...] and
    [/api/download?url=...&format_id=...&client_id=...] (there is no
    [formatId] and no [token] parameter), and the success body of the design
    document, [{status, filename, downloadUrl}], is taken for an invalid
    response: nothing is navigated to and an error is shown. *)
Lemma documented_interface_not_used :
  let w := snd (run (handleDownload localhost (loaded a_video_url)
                       (answered a_random_number (JObj documented_success_body)))
                    (loaded a_video_url)) in
  only [an_open; a_request; a_navigation] (trace w)
  = [new_WebSocket (str "ws://localhost:8000/api/ws/xnh83h");
     fetch (str "http://localhost:8000/api/download?url=https%3A%2F%2Fyoutu.be%2FdQw4w9WgXcQ&format_id=best&client_id=xnh83h")]
  ∧ error (state w) = Some (str "Download failed - invalid response").
Proof. vm_compute. split; reflexivity. Qed.
(** ** How the download request settles *)

(** The end of a call with video info loaded, from its verdict: the cells
    and the navigation. *)
Lemma handleDownload_end c st r info :
  videoInfo st = Some info ->
  state (snd (run (handleDownload c st r) st)) = settled st (verdict c st r)
  ∧ only [a_navigation] (trace (snd (run (handleDownload c st r) st)))
    = match verdict c st r with
      | Normal address => [location_href address]
      | Throw _ => []
      end.
Proof.
  intros Hinfo.
  rewrite (handleDownload_only [a_navigation] c st r info Hinfo) by compute_done.
  destruct (handleDownload_final c st r info Hinfo) as (w & -> & Hst & _).
  cbn [snd]. split; [done|]. unfold outside.
  destruct (verdict c st r) as [address|e] eqn:Hv; unfold verdict in Hv;
    (destruct (encode (url st)) as [enc|]; [|try discriminate Hv]);
    [destruct (download_response r) as [resp|e']; [|discriminate Hv]
    |destruct (download_response r) as [resp|e']|];
    destruct (error_shown (error st)); by only_tac.
Qed.

(** What [settled] says of a failed call. *)
Lemma settled_failed st (e : Thrown) :
  error (settled st (Throw e)) = Some (message_or (str "Download failed") e)
  ∧ downloadProgress (settled st (Throw e)) = None.
Proof. done. Qed.

(** The verdict on an OK response whose body is an object. *)
Lemma verdict_ok_object c st r enc resp m :
  encode (url st) = Some enc ->
  download_response r = Normal resp ->
  ok resp = true ->
  json resp = Normal (JObj m) ->
  verdict c st r
  = if strict_eq_string (default JUndefined (m !! str "status")) (str "success") then
      if truthy (default JUndefined (m !! str "download_url")) then
        match ToString (default JUndefined (m !! str "download_url")) with
        | Throw e => Throw e
        | Normal path =>
            match href_error r (API_BASE c ++ path) with
            | Some msg => Throw (ErrorObject msg)
            | None => Normal (API_BASE c ++ path)
            end
        end
      else Throw (ErrorObject (str "Download failed - invalid response"))
    else Throw (ErrorObject (str "Download failed - invalid response")).
Proof.
  intros Henc Hresp Hok Hjson. unfold verdict, judge, get, field_name.
  by rewrite Henc, Hresp, Hjson, Hok.
Qed.




(** The only thing [ToString] throws is the TypeError of an object that
    cannot be converted. *)
Lemma ToString_throws :
  ∀ v t, ToString v = Throw t -> t = ErrorObject cannot_convert_message.
Proof.
  fix IH 1. intros [| |[|]|n|s|l|m] t; cbn [ToString]; try discriminate.
  - set (elements := fix elements (l : list JsVal) : Completion (list jsstring) :=
                       match l with
                       | [] => Normal []
                       | e :: l' =>
                           match match e with
                                 | JUndefined | JNull => Normal []
                                 | _ => ToString e
                                 end with
                           | Throw t => Throw t
                           | Normal p =>
                               match elements l' with
                               | Throw t => Throw t
                               | Normal ps => Normal (p :: ps)
                               end
                           end
                       end).
    destruct (elements l) as [ps|t'] eqn:Hels; [discriminate|].
    intros [= <-]. revert t' Hels.
    refine ((fix IHl (l0 : list JsVal) :
               ∀ t', elements l0 = Throw t' -> t' = ErrorObject cannot_convert_message
             := _) l).
    destruct l0 as [|e l0]; intros t'; [discriminate|].
    cbn [elements]. fold elements.
    destruct (match e with
              | JUndefined | JNull => Normal []
              | _ => ToString e
              end) as [p|t''] eqn:Hhd.
    + destruct (elements l0) as [ps|t''] eqn:Hl; [discriminate|].
      intros [= <-]. exact (IHl l0 _ Hl).
    + intros [= <-].
      assert (He : ToString e = Throw t'')
        by (destruct e; try discriminate Hhd; exact Hhd).
      exact (IH e _ He).
  - destruct (m !! str "toString"); [by intros [= <-]|discriminate].
Qed.

(** The message of [throw new Error(d || fallback)]. *)
Lemma thrown_by_new_Error (d : JsVal) (fallback : jsstring) :
  thrown_by (new_Error (or_else d (JStr fallback)))
  = ErrorObject
      (if truthy d then
         match ToString d with
         | Normal s => s
         | Throw _ => cannot_convert_message
         end
       else fallback).
Proof.
  unfold or_else. destruct (truthy d) eqn:Hd.
  - assert (Hnew : new_Error d
                   = match ToString d with
                     | Normal x => Normal (ErrorObject x)
                     | Throw t => Throw t
                     end) by (by destruct d).
    rewrite Hnew. destruct (ToString d) as [x|t] eqn:Hx; [done|].
    cbn [thrown_by]. by apply ToString_throws in Hx.
  - done.
Qed.

(** The verdict on a response that is not OK. *)
Lemma verdict_not_ok c st r enc resp :
  encode (url st) = Some enc ->
  download_response r = Normal resp ->
  ok resp = false ->
  verdict c st r
  = match json resp with
    | Throw e => Throw e
    | Normal data =>
        match get data detail with
        | Throw e => Throw e
        | Normal d =>
            Throw (ErrorObject
                     (if truthy d then
                        match ToString d with
                        | Normal s => s
                        | Throw _ => cannot_convert_message
                        end
                      else str "Download failed"))
        end
    end.
Proof.
  intros Henc Hresp Hok. unfold verdict, judge. rewrite Henc, Hresp, Hok. cbn [negb].
  destruct (json resp) as [data|e]; [|done].
  destruct (get data detail) as [d|e]; [|done].
  by rewrite thrown_by_new_Error.
Qed.

(** C5.  For every download response that is not OK: the error cell is set
    to a message, [downloadProgress] is reset to null and nothing is
    navigated to.  The message is: (1) when the body parses and its
    [detail] can be read (the body is not [null]), the string conversion of
    [detail] if [detail] is truthy and converts, the message of the
    conversion's TypeError if it is truthy and does not convert, and
    ["Download failed"] if [detail] is absent or falsy ([null], [false], 0,
    the empty string); (2) when the body is [null], the message of the
    TypeError of reading [detail]; (3) when the body does not parse, the
    message of what the parser threw.  (4) The page shows the message
    unless it is the empty string. *)
Theorem handleDownload_not_ok_response (c : Config) (st : State) (r : DownloadRun)
    (info : VideoInfo) (enc : jsstring) (resp : Response JsVal) :
  videoInfo st = Some info ->
  encode (url st) = Some enc ->
  download_response r = Normal resp ->
  ok resp = false ->
  (∃ msg, error (state (snd (run (handleDownload c st r) st))) = Some msg)
  ∧ downloadProgress (state (snd (run (handleDownload c st r) st))) = None
  ∧ only [a_navigation] (trace (snd (run (handleDownload c st r) st))) = []
  ∧ (∀ data d,
        json resp = Normal data ->
        get data detail = Normal d ->
        error (state (snd (run (handleDownload c st r) st)))
        = Some (if truthy d then
                  match ToString d with
                  | Normal s => s
                  | Throw _ => cannot_convert_message
                  end
                else str "Download failed"))
  ∧ (json resp = Normal JNull ->
        error (state (snd (run (handleDownload c st r) st)))
        = Some (TypeError_message (str "null") (str "detail")))
  ∧ (∀ e, json resp = Throw e ->
        error (state (snd (run (handleDownload c st r) st)))
        = Some (message_or (str "Download failed") e))
  ∧ (error_banner (state (snd (run (handleDownload c st r) st))) = None
     <-> error (state (snd (run (handleDownload c st r) st))) = Some []).
Proof.
  intros Hinfo Henc Hresp Hok.
  destruct (handleDownload_end c st r info Hinfo) as [-> ->].
  rewrite (verdict_not_ok c st r enc resp Henc Hresp Hok).
  assert (Hthrows : ∃ e, match json resp with
                         | Throw e => Throw e
                         | Normal data =>
                             match get data detail with
                             | Throw e => Throw e
                             | Normal d =>
                                 Throw (ErrorObject
                                          (if truthy d then
                                             match ToString d with
                                             | Normal s => s
                                             | Throw _ => cannot_convert_message
                                             end
                                           else str "Download failed"))
                             end
                         end = Throw (A:=jsstring) e).
  { destruct (json resp) as [data|e]; [destruct (get data detail) as [d|e]|];
      by eexists. }
  destruct Hthrows as [e He]. split_and!.
  - rewrite He. by eexists.
  - by rewrite He.
  - by rewrite He.
  - intros data d -> ->. done.
  - intros ->. done.
  - intros e' ->. done.
  - rewrite He. unfold error_banner, error_shown. cbn [settled error].
    destruct (decide (message_or (str "Download failed") e = [])) as [->|Hne].
    + done.
    + rewrite bool_decide_eq_false_2 by done. cbn [negb]. split; [done|].
      intros [= Hm]. done.
Qed.

Lemma handleDownload_not_ok_response_witness :
  error (state (snd (run (handleDownload localhost (loaded a_video_url)
                            (refused a_random_number
                               (Normal (JObj {[ str "detail" := JStr (str "Video unavailable") ]}))))
                         (loaded a_video_url))))
  = Some (str "Video unavailable")
  ∧ downloadProgress
      (state (snd (run (handleDownload localhost (loaded a_video_url)
                          (refused a_random_number
                             (Normal (JObj {[ str "detail" := JStr (str "Video unavailable") ]}))))
                       (loaded a_video_url))))
    = None.
Proof.
  destruct (handleDownload_not_ok_response localhost (loaded a_video_url)
              (refused a_random_number
                 (Normal (JObj {[ str "detail" := JStr (str "Video unavailable") ]})))
              sample_info (str "https%3A%2F%2Fyoutu.be%2FdQw4w9WgXcQ")
              {| ok := false;
                 json := Normal (JObj {[ str "detail" := JStr (str "Video unavailable") ]}) |}
              eq_refl eq_refl eq_refl eq_refl) as (_ & Hprogress & _ & Hmsg & _).
  split; [|exact Hprogress].
  exact (Hmsg _ (JStr (str "Video unavailable")) eq_refl eq_refl).
Defined.

(** C5, as stated, fails in five ways, each on a response that is not OK.
    (1) A body that is not JSON (a plain-text 500 page, say) has no
    [detail], yet the message is the parser's, not ["Download failed"]:
    [response.json()] is awaited before [response.ok] is looked at.  (2) A
    [detail] that is present but empty gives ["Download failed"], not the
    detail.  (3) The detail [[]] is truthy and converts to the empty
    string: the error cell holds it, and the page, which renders the
    message only when it is truthy, shows nothing.  (4) A [detail] that is
    an object with a [toString] property cannot be converted: the message
    is the TypeError's.  (5) The body [null] has no [detail] either, and
    the message is that of the TypeError of reading it. *)
Lemma not_ok_response_other_messages :
  error (state (snd (run (handleDownload localhost (loaded a_video_url)
                            (refused a_random_number
                               (Throw (ErrorObject
                                         (str "Unexpected token I in JSON at position 0")))))
                         (loaded a_video_url))))
  = Some (str "Unexpected token I in JSON at position 0")
  ∧ error (state (snd (run (handleDownload localhost (loaded a_video_url)
                              (refused a_random_number
                                 (Normal (JObj {[ str "detail" := JStr [] ]}))))
                           (loaded a_video_url))))
    = Some (str "Download failed")
  ∧ (error (state (snd (run (handleDownload localhost (loaded a_video_url)
                               (refused a_random_number
                                  (Normal (JObj {[ str "detail" := JArr [] ]}))))
                            (loaded a_video_url))))
     = Some []
     ∧ error_banner
         (state (snd (run (handleDownload localhost (loaded a_video_url)
                             (refused a_random_number
                                (Normal (JObj {[ str "detail" := JArr [] ]}))))
                          (loaded a_video_url))))
       = None)
  ∧ error (state (snd (run (handleDownload localhost (loaded a_video_url)
                              (refused a_random_number
                                 (Normal (JObj {[ str "detail"
                                                  := JObj {[ str "toString" := JNull ]} ]}))))
                           (loaded a_video_url))))
    = Some (str "Cannot convert object to primitive value")
  ∧ error (state (snd (run (handleDownload localhost (loaded a_video_url)
                              (refused a_random_number (Normal JNull)))
                           (loaded a_video_url))))
    = Some (str "Cannot read properties of null (reading 'detail')").
Proof. split_and!; vm_compute; reflexivity. Qed.

(** ** The client token as a string *)

Lemma clientId_nonempty_iff (k : unit_double) :
  clientId k ≠ [] <-> (7 < length (toString36 k))%nat.
Proof.
  unfold clientId, substring. split.
  - intros Hne. destruct (decide (7 < length (toString36 k))%nat) as [|Hle]; [done|].
    exfalso. apply Hne, drop_ge. lia.
  - intros Hlt Heq. apply (f_equal length) in Heq.
    rewrite length_drop in Heq. cbn in Heq. lia.
Qed.

(** C2.  The token is not always non-empty.  [Math.random()] may return
    1/2, whose rendering in radix 36 is ["0.i"]; [substring(7)] of it is the
    empty string, the channel is then opened at [.../api/ws/] and the
    request carries [client_id=] with nothing after it.  The same happens
    for 0 (["0"]) and for every Number whose rendering has fewer than six
    digits after the point; a usual draw such as 1112001536866471 / 2^53
    gives a six-character token. *)
Theorem clientId_can_be_empty :
  toString36 one_half = str "0.i"
  ∧ clientId one_half = []
  ∧ toString36 0 = str "0"
  ∧ clientId 0 = []
  ∧ clientId a_random_number = str "xnh83h"
  ∧ only [an_open; a_request]
      (trace (snd (run (handleDownload localhost (loaded a_video_url)
                          (answered one_half (JObj success_body)))
                       (loaded a_video_url))))
    = [new_WebSocket (str "ws://localhost:8000/api/ws/");
       fetch (str "http://localhost:8000/api/download?url=https%3A%2F%2Fyoutu.be%2FdQw4w9WgXcQ&format_id=best&client_id=")].
Proof. split_and!; vm_compute; reflexivity. Qed.

(* ===================================================================== *)
(** * Further properties of the component                                 *)
(* ===================================================================== *)

(** X1.  What arrives on the progress channel never changes how a call of
    [handleDownload] ends: with any channel events during the two [await]s,
    the call completes the same way, ends in the same state (the same error,
    the same [downloadProgress]) and does the same things to the outside
    (token, channel, request, body read, navigation, close, timer) as with
    no channel events at all. *)
Theorem handleDownload_deaf_to_channel (c : Config) (st : State) (r : DownloadRun) :
  fst (run (handleDownload c st r) st)
  = fst (run (handleDownload c st
                {| random := random r; download_response := download_response r;
                   during_fetch := []; during_json := [];
                   href_error := href_error r |}) st)
  ∧ state (snd (run (handleDownload c st r) st))
    = state (snd (run (handleDownload c st
                         {| random := random r; download_response := download_response r;
                            during_fetch := []; during_json := [];
                            href_error := href_error r |}) st))
  ∧ only outside_kinds (trace (snd (run (handleDownload c st r) st)))
    = only outside_kinds
        (trace (snd (run (handleDownload c st
                            {| random := random r;
                               download_response := download_response r;
                               during_fetch := []; during_json := [];
                               href_error := href_error r |}) st))).
Proof.
  destruct (videoInfo st) as [info|] eqn:Hinfo.
  - destruct (handleDownload_final c st r info Hinfo) as (w & -> & Hst & Hout).
    destruct (handleDownload_final c st
                {| random := random r; download_response := download_response r;
                   during_fetch := []; during_json := [];
                   href_error := href_error r |} info Hinfo)
      as (w' & -> & Hst' & Hout').
    cbn [fst snd]. rewrite Hst, Hst', Hout, Hout'. done.
  - by rewrite !handleDownload_idle.
Qed.



(** X3.  When the download request is rejected (the network is down, the
    server is not there), the call shows the message of the thrown error,
    or ["Download failed"] if what was thrown is not an [Error]; it resets
    [downloadProgress] to null, reads no body and navigates nowhere, and
    still closes the channel it opened. *)
Theorem handleDownload_request_rejected (c : Config) (st : State) (r : DownloadRun)
    (info : VideoInfo) (enc : jsstring) (e : Thrown) :
  videoInfo st = Some info ->
  encode (url st) = Some enc ->
  download_response r = Throw e ->
  error (state (snd (run (handleDownload c st r) st)))
  = Some (match e with
          | ErrorObject m => m
          | NotAnError => str "Download failed"
          end)
  ∧ downloadProgress (state (snd (run (handleDownload c st r) st))) = None
  ∧ only [an_open; a_request; a_body_read; a_navigation; a_close]
      (trace (snd (run (handleDownload c st r) st)))
    = [new_WebSocket (WS_BASE c ++ str "/api/ws/" ++ clientId (random r));
       fetch (API_BASE c ++ str "/api/download?url=" ++ enc
              ++ str "&format_id=" ++ selectedFormat st
              ++ str "&client_id=" ++ clientId (random r));
       ws_close].
Proof.
  intros Hinfo Henc Hresp.
  rewrite (handleDownload_only _ c st r info Hinfo) by compute_done.
  destruct (handleDownload_final c st r info Hinfo) as (w & -> & Hst & _).
  cbn [snd]. rewrite Hst. unfold settled, outside, verdict. rewrite Henc, Hresp.
  cbn [error downloadProgress]. split_and!; [by destruct e|done|].
  destruct (error_shown (error st)); by only_tac.
Qed.

Lemma handleDownload_request_rejected_witness :
  error (state (snd (run (handleDownload localhost (loaded a_video_url)
                            (unreachable a_random_number)) (loaded a_video_url))))
  = Some (str "Failed to fetch").
Proof.
  apply (handleDownload_request_rejected localhost (loaded a_video_url)
           (unreachable a_random_number) sample_info
           (str "https%3A%2F%2Fyoutu.be%2FdQw4w9WgXcQ")
           (ErrorObject (str "Failed to fetch")) eq_refl eq_refl eq_refl).
Defined.

(** X4.  When the url cannot be encoded (it holds an unpaired surrogate),
    [encodeURIComponent] throws inside the [try] block: no request is
    issued at all, the error shown is the URIError's message,
    [downloadProgress] is reset to null, and the channel that was opened
    just before is closed again. *)
Theorem handleDownload_unencodable_url (c : Config) (st : State) (r : DownloadRun)
    (info : VideoInfo) :
  videoInfo st = Some info ->
  encode (url st) = None ->
  error (state (snd (run (handleDownload c st r) st))) = Some URIError_message
  ∧ downloadProgress (state (snd (run (handleDownload c st r) st))) = None
  ∧ only [an_open; a_request; a_body_read; a_navigation; a_close]
      (trace (snd (run (handleDownload c st r) st)))
    = [new_WebSocket (WS_BASE c ++ str "/api/ws/" ++ clientId (random r)); ws_close].
Proof.
  intros Hinfo Henc.
  rewrite (handleDownload_only _ c st r info Hinfo) by compute_done.
  destruct (handleDownload_final c st r info Hinfo) as (w & -> & Hst & _).
  cbn [snd]. rewrite Hst. unfold settled, outside, verdict. rewrite Henc.
  cbn [error downloadProgress message_or]. split_and!; [done..|].
  destruct (error_shown (error st)); by only_tac.
Qed.

Lemma handleDownload_unencodable_url_witness :
  error (state (snd (run (handleDownload localhost (loaded a_broken_url)
                            (answered a_random_number (JObj success_body)))
                         (loaded a_broken_url))))
  = Some URIError_message.
Proof.
  apply (handleDownload_unencodable_url localhost (loaded a_broken_url)
           (answered a_random_number (JObj success_body)) sample_info
           eq_refl eq_refl).
Defined.

(** The timer of a call with video info loaded. *)
Lemma handleDownload_timer c st r info :
  videoInfo st = Some info ->
  only [a_timer] (trace (snd (run (handleDownload c st r) st)))
  = if error_shown (error st) then [] else [setTimeout 3000].
Proof.
  intros Hinfo.
  rewrite (handleDownload_only _ c st r info Hinfo) by compute_done.
  unfold outside.
  destruct (encode (url st)) as [enc|]; [destruct (download_response r) as [resp|e]|];
    [destruct (verdict c st r)| |]; destruct (error_shown (error st)); by only_tac.
Qed.

(** X5.  Whether the call schedules the 3000 ms timer that hides the
    progress bar depends on the error shown when the call was made (the
    [error] of the handler's closure), and on nothing else: not on whether
    this download succeeded or failed.  It schedules exactly one timer when
    no error was shown, and none when one was. *)
Theorem handleDownload_timer_follows_earlier_error (c : Config) (st : State)
    (r : DownloadRun) (info : VideoInfo) :
  videoInfo st = Some info ->
  only [a_timer] (trace (snd (run (handleDownload c st r) st)))
  = if error_shown (error st) then [] else [setTimeout 3000].
Proof. apply handleDownload_timer. Qed.

Lemma handleDownload_timer_follows_earlier_error_witness :
  only [a_timer]
    (trace (snd (run (handleDownload localhost (loaded a_video_url)
                        (unreachable a_random_number)) (loaded a_video_url))))
  = [setTimeout 3000].
Proof.
  apply (handleDownload_timer_follows_earlier_error localhost (loaded a_video_url)
           (unreachable a_random_number) sample_info eq_refl).
Defined.

(** X6.  A download that succeeds while an error was being shown (a retry
    after a failed download, say) schedules no timer of its own: at the end
    of the call [downloadProgress] is at "completed", and since the Download
    button is only rendered while [downloadProgress] is null, the page
    rendered from that state offers no Download button.  The button comes
    back when a timer callback runs, which can only be one still pending
    from an earlier call. *)
Theorem retry_after_error_hides_download_button (c : Config) (st : State)
    (r : DownloadRun) (info : VideoInfo) (enc : jsstring) (resp : Response JsVal)
    (m : JsObject) (v : JsVal) (path : jsstring) :
  videoInfo st = Some info ->
  error_shown (error st) = true ->
  encode (url st) = Some enc ->
  download_response r = Normal resp ->
  ok resp = true ->
  json resp = Normal (JObj m) ->
  m !! str "status" = Some (JStr (str "success")) ->
  m !! str "download_url" = Some v ->
  truthy v = true ->
  ToString v = Normal path ->
  href_error r (API_BASE c ++ path) = None ->
  only [a_timer] (trace (snd (run (handleDownload c st r) st))) = []
  ∧ downloadProgress (state (snd (run (handleDownload c st r) st)))
    = Some progress_completed
  ∧ (∀ d, download_button d ∉ controls (state (snd (run (handleDownload c st r) st))))
  ∧ download_button false
    ∈ controls (state (snd (timeout_callback (snd (run (handleDownload c st r) st))))).
Proof.
  intros Hinfo Herr Henc Hresp Hok Hjson Hs Hu Htruthy Hpath Hhref.
  rewrite (handleDownload_timer c st r info Hinfo), Herr.
  destruct (handleDownload_end c st r info Hinfo) as [Hst _].
  assert (Hv : verdict c st r = Normal (API_BASE c ++ path)).
  { rewrite (verdict_ok_object c st r enc resp m Henc Hresp Hok Hjson), Hs, Hu.
    cbn [default from_option id strict_eq_string].
    rewrite bool_decide_eq_true_2 by done. by rewrite Htruthy, Hpath, Hhref. }
  rewrite Hv in Hst. split_and!.
  - done.
  - by rewrite Hst.
  - intros d (_ & Hp & _)%download_button_rendered. rewrite Hst in Hp. discriminate Hp.
  - apply download_button_rendered. unfold timeout_callback, set. cbn [snd state].
    rewrite Hst. cbn. rewrite Hinfo. by repeat split.
Qed.

Lemma retry_after_error_hides_download_button_witness :
  download_button false ∈ controls (failed_before a_video_url)
  ∧ ∀ d, download_button d
         ∉ controls (state (snd (run (handleDownload localhost (failed_before a_video_url)
                                        (answered a_random_number (JObj success_body)))
                                     (failed_before a_video_url)))).
Proof.
  split.
  - apply download_button_rendered. by repeat split.
  - apply (retry_after_error_hides_download_button localhost (failed_before a_video_url)
             (answered a_random_number (JObj success_body)) sample_info
             (str "https%3A%2F%2Fyoutu.be%2FdQw4w9WgXcQ")
             {| ok := true; json := Normal (JObj success_body) |} success_body
             (JStr (str "/files/video.mp4")) (str "/files/video.mp4")
             eq_refl eq_refl eq_refl eq_refl eq_refl eq_refl eq_refl eq_refl eq_refl
             eq_refl eq_refl).
Defined.

(** X7.  The guard of line 82 is never what a click meets: wherever the page
    renders the Download button, video info is loaded and no progress is
    shown, the button is disabled exactly while [downloading], and a call of
    [handleDownload] from that state does draw its token and open the
    channel. *)
Theorem download_button_starts_a_download (c : Config) (st : State)
    (r : DownloadRun) (d : bool) :
  download_button d ∈ controls st ->
  d = downloading st
  ∧ downloadProgress st = None
  ∧ only [a_random; an_open] (trace (snd (run (handleDownload c st r) st)))
    = [Math_random (random r);
       new_WebSocket (WS_BASE c ++ str "/api/ws/" ++ clientId (random r))].
Proof.
  intros (Hinfo & Hp & Hd)%download_button_rendered.
  destruct (videoInfo st) as [info|] eqn:Hvi; [|done].
  split_and!; [done..|].
  rewrite (handleDownload_only _ c st r info Hvi) by compute_done.
  unfold outside.
  destruct (encode (url st)) as [enc|]; [destruct (download_response r) as [resp|e]|];
    [destruct (verdict c st r)| |]; destruct (error_shown (error st)); by only_tac.
Qed.

Lemma download_button_starts_a_download_witness :
  only [a_random; an_open]
    (trace (snd (run (handleDownload localhost (loaded a_video_url)
                        (unreachable a_random_number)) (loaded a_video_url))))
  = [Math_random a_random_number;
     new_WebSocket (WS_BASE localhost ++ str "/api/ws/" ++ clientId a_random_number)].
Proof.
  apply (download_button_starts_a_download localhost (loaded a_video_url)
           (unreachable a_random_number) false).
  apply download_button_rendered. by repeat split.
Defined.

(** ** The progress channel and the page *)

Lemma deliver_keeps_progress evs w :
  downloadProgress (state w) ≠ None ->
  downloadProgress (state (snd (deliver evs w))) ≠ None.
Proof.
  revert w. induction evs as [|ev evs IH]; intros w Hp; [done|].
  cbn [deliver]. unfold bind at 1.
  destruct (handle ev w) as [[[]|e] w1] eqn:Hev.
  - apply IH. destruct ev as [parsed|]; unfold handle, dispatch in Hev.
    + destruct (onmessage_cases parsed w) as [(m & -> & _ & Hm)|[_ Hm]];
        rewrite Hm in Hev; injection Hev as <-; [done|done].
    + injection Hev as <-. done.
  - destruct ev; unfold handle, dispatch in Hev; discriminate.
Qed.

(** X8.  What brings the Download button back while a download is under
    way.  The call sets [downloadProgress] before its first [await] (line
    86) and no channel event ever sets it back to null, so after the
    opening of the call and any channel events whatever there is no
    Download button among the controls.  A timer callback does set it to
    null (line 133; the timer of an earlier call that failed is still
    pending for 3000 ms): when it runs during the download, the progress
    panel gives way to the Download button, which is disabled since
    [downloading] is true. *)
Theorem download_button_during_download (st : State) (evs : list ChannelEvent)
    (tr : list Event) (info : VideoInfo) :
  videoInfo st = Some info ->
  (∀ d, download_button d
        ∉ controls (state (snd (deliver evs {| state := started st; trace := tr |}))))
  ∧ download_button true
    ∈ controls (state (snd (timeout_callback
                              (snd (deliver evs {| state := started st; trace := tr |}))))).
Proof.
  intros Hinfo. split.
  - intros d (_ & Hp & _)%download_button_rendered. revert Hp.
    by apply deliver_keeps_progress.
  - destruct (deliver_spec evs {| state := started st; trace := tr |})
      as (st' & tr' & -> & _ & (_ & _ & Hvi & _ & _ & Hdl)).
    unfold started in Hvi, Hdl.
    cbn [state apply_setter videoInfo downloading] in Hvi, Hdl.
    apply download_button_rendered. unfold timeout_callback, set.
    cbn [snd state apply_setter videoInfo downloadProgress downloading].
    rewrite Hvi, Hdl, Hinfo. by repeat split.
Qed.

Lemma download_button_during_download_witness :
  download_button true
  ∈ controls (state (snd (timeout_callback
                            (snd (deliver [progress_message]
                                    {| state := started (loaded a_video_url);
                                       trace := [] |}))))).
Proof.
  apply (download_button_during_download (loaded a_video_url) [progress_message] []
           sample_info eq_refl).
Defined.

(** X9.  A progress message (status ["downloading"] or ["finished"]) is
    merged into [downloadProgress] property by property: every property of
    the message replaces the one shown, every property the message lacks
    keeps the value it had (so a message without [percent] leaves the
    percent where it was), and nothing is removed. *)
Theorem onmessage_merges (m : JsObject) (w : World) :
  m !! str "status" = Some (JStr (str "downloading"))
  ∨ m !! str "status" = Some (JStr (str "finished")) ->
  ∃ shown,
    downloadProgress (state (snd (onmessage (Normal (JObj m)) w))) = Some shown
    ∧ ∀ k, shown !! k
           = match m !! k with
             | Some v => Some v
             | None => default ∅ (downloadProgress (state w)) !! k
             end.
Proof.
  intros Hs.
  destruct (onmessage_cases (Normal (JObj m)) w) as [(m' & [= <-] & _ & ->)|[Hno _]].
  - eexists. split; [reflexivity|]. intros k. cbn [own_properties].
    rewrite lookup_union. by destruct (m !! k), (default ∅ _ !! k).
  - destruct (Hno m eq_refl) as [H1 H2]. by destruct Hs.
Qed.

Lemma onmessage_merges_witness :
  ∃ shown,
    downloadProgress
      (state (snd (onmessage
                     (Normal (JObj {[ str "status" := JStr (str "finished") ]}))
                     {| state := started (loaded a_video_url); trace := [] |})))
    = Some shown
    ∧ shown !! str "status" = Some (JStr (str "finished"))
    ∧ shown !! str "percent" = Some (JNum (str "0")).
Proof.
  destruct (onmessage_merges {[ str "status" := JStr (str "finished") ]}
              {| state := started (loaded a_video_url); trace := [] |})
    as (shown & Hshown & Hk).
  - right. reflexivity.
  - exists shown. split; [exact Hshown|]. split.
    + exact (Hk (str "status")).
    + exact (Hk (str "percent")).
Defined.

(** X10.  The format buttons of the page.  The page renders at most twelve
    controls.  The controls whose [onClick] is a call of
    [setSelectedFormat] are the Best button and the format buttons, of
    which there are at most eight; a click on one of them sets
    [selectedFormat] to ["best"], or to the [format_id] of a format of the
    loaded video info that has a video resolution, and changes no other
    cell. *)
Theorem format_buttons_select_listed_formats (st : State) :
  (length (controls st) <= 12)%nat
  ∧ (length (List.filter (fun ctl => bool_decide (is_Some (select ctl))) (controls st))
     <= 9)%nat
  ∧ ∀ ctl onClick, ctl ∈ controls st -> select ctl = Some onClick ->
      (selectedFormat (onClick st) = str "best"
       ∨ ∃ info f, videoInfo st = Some info ∧ f ∈ formats info
                   ∧ has_video_resolution f
                   ∧ selectedFormat (onClick st) = format_id f)
      ∧ url (onClick st) = url st
      ∧ loading (onClick st) = loading st
      ∧ videoInfo (onClick st) = videoInfo st
      ∧ error (onClick st) = error st
      ∧ downloading (onClick st) = downloading st
      ∧ downloadProgress (onClick st) = downloadProgress st.
Proof.
  assert (Hquality : (length (getQualityFormats st) <= 8)%nat).
  { unfold getQualityFormats. destruct (videoInfo st); [|cbn; lia].
    rewrite length_take. lia. }
  split_and!.
  - unfold controls. destruct (videoInfo st) as [info|] eqn:Hinfo; cbn [length]; [|lia].
    rewrite length_app, length_fmap.
    destruct (downloadProgress st); cbn [length]; lia.
  - unfold controls. destruct (videoInfo st) as [info|] eqn:Hinfo; cbn; [|lia].
    rewrite List.filter_app, length_app.
    pose proof (List.filter_length_le
                  (fun ctl => bool_decide (is_Some (select ctl)))
                  ((fun f => format_button f (bool_decide (selectedFormat st = format_id f)))
                     <$> getQualityFormats st)) as Hle.
    rewrite length_fmap in Hle.
    destruct (downloadProgress st); cbn; lia.
  - intros ctl onClick Hctl Hsel.
    destruct ctl as [| | |f a|]; try discriminate Hsel; injection Hsel as <-;
      (split; [|done]); [by left|].
    right. unfold controls in Hctl.
    destruct (videoInfo st) as [info|] eqn:Hinfo.
    + exists info, f. split; [done|].
      repeat (apply elem_of_cons in Hctl as [Hctl|Hctl]; [discriminate|]).
      apply elem_of_app in Hctl as [Hctl|Hctl].
      * apply list_elem_of_fmap in Hctl as (f' & [= <- _] & Hf).
        unfold getQualityFormats in Hf. rewrite Hinfo in Hf.
        apply elem_of_take in Hf as (i & Hf & _).
        apply list_elem_of_lookup_2, list_elem_of_In, filter_In in Hf as [Hin Hq].
        split_and!; [by apply list_elem_of_In|by apply is_quality_format_spec|done].
      * destruct (downloadProgress st); [by apply elem_of_nil in Hctl|].
        by apply list_elem_of_singleton in Hctl.
    + repeat (apply elem_of_cons in Hctl as [Hctl|Hctl]; [discriminate|]).
      by apply elem_of_nil in Hctl.
Qed.

(** ** [fetchVideoInfo] on a url that is not blank *)

Lemma fetchVideoInfo_final c st r :
  trim (url st) ≠ [] ->
  ∃ w,
    run (fetchVideoInfo c st r) st = (Normal (), w)
    ∧ state w
      = {| url := url st; loading := false;
           videoInfo := match info_verdict st r with
                        | Normal stored => stored
                        | Throw _ => None
                        end;
           error := match info_verdict st r with
                    | Normal _ => None
                    | Throw e => Some (message_or (str "An error occurred") e)
                    end;
           selectedFormat := selectedFormat st;
           downloading := downloading st;
           downloadProgress := downloadProgress st |}
    ∧ only [a_random; an_open; a_navigation; a_close; a_timer; a_console_line]
        (trace w) = [].
Proof.
  intros Hblank. unfold run, fetchVideoInfo, info_verdict.
  rewrite bool_decide_eq_false_2 by done.
  unfold try_catch_finally, encodeURIComponent, bind, set, emit, lift, throw, ret.
  cbn [state trace app snd].
  destruct (encode (url st)) as [enc|]; cbn [state trace app snd].
  - destruct (info_response r) as [resp|e]; cbn [state trace app snd].
    + destruct (json resp) as [data|e]; cbn [state trace app snd];
        [destruct (ok resp); cbn [negb state trace app snd];
         [|destruct (get (data_value data) detail) as [d|e];
           [destruct (new_Error _)|]; cbn [state trace app snd thrown_by]]|];
        eexists; (split; [reflexivity|]); cbn [state trace]; (split; [done|by only_tac]).
    + eexists; (split; [reflexivity|]); cbn [state trace]; (split; [done|by only_tac]).
  - eexists; (split; [reflexivity|]); cbn [state trace]; (split; [done|by only_tac]).
Qed.



(** X12.  The message [fetchVideoInfo] sets when it fails.  For a response
    that is not OK whose body was parsed: the string conversion of the
    body's [detail] if that is truthy and converts, the TypeError's message
    if it is truthy and does not convert, ["Failed to fetch video info"] if
    it is absent or falsy; and for the body [null], the message of the
    TypeError of reading [detail].  For a rejected request or an unparsable
    body: the message of what was thrown, or ["An error occurred"] if that
    is not an [Error].  In each case the video info is null afterwards. *)
Theorem fetchVideoInfo_failure_messages (c : Config) (st : State) (r : InfoRun)
    (enc : jsstring) :
  trim (url st) ≠ [] ->
  encode (url st) = Some enc ->
  (∀ resp data d,
      info_response r = Normal resp -> ok resp = false -> json resp = Normal data ->
      get (data_value data) detail = Normal d ->
      error (state (snd (run (fetchVideoInfo c st r) st)))
      = Some (if truthy d then
                match ToString d with
                | Normal s => s
                | Throw _ => cannot_convert_message
                end
              else str "Failed to fetch video info")
      ∧ videoInfo (state (snd (run (fetchVideoInfo c st r) st))) = None)
  ∧ (∀ resp data,
      info_response r = Normal resp -> ok resp = false -> json resp = Normal data ->
      data_value data = JNull ->
      error (state (snd (run (fetchVideoInfo c st r) st)))
      = Some (TypeError_message (str "null") (str "detail"))
      ∧ videoInfo (state (snd (run (fetchVideoInfo c st r) st))) = None)
  ∧ (∀ resp e,
      info_response r = Normal resp -> json resp = Throw e ->
      error (state (snd (run (fetchVideoInfo c st r) st)))
      = Some (match e with ErrorObject m => m | NotAnError => str "An error occurred" end)
      ∧ videoInfo (state (snd (run (fetchVideoInfo c st r) st))) = None)
  ∧ (∀ e,
      info_response r = Throw e ->
      error (state (snd (run (fetchVideoInfo c st r) st)))
      = Some (match e with ErrorObject m => m | NotAnError => str "An error occurred" end)
      ∧ videoInfo (state (snd (run (fetchVideoInfo c st r) st))) = None).
Proof.
  intros Hblank Henc.
  destruct (fetchVideoInfo_final c st r Hblank) as (w & -> & Hst & _).
  cbn [snd]. rewrite Hst. unfold info_verdict. rewrite Henc. cbn [error videoInfo].
  split_and!.
  - intros resp data d -> Hok -> ->. rewrite Hok. cbn [negb].
    by rewrite thrown_by_new_Error.
  - intros resp data -> Hok -> ->. rewrite Hok. done.
  - intros resp e -> ->. by destruct e.
  - intros e ->. by destruct e.
Qed.

Lemma fetchVideoInfo_failure_messages_witness :
  error
    (state (snd (run (fetchVideoInfo localhost (loaded a_video_url)
                        {| info_response :=
                             Normal {| ok := false; json := Normal null_body |} |})
                     (loaded a_video_url))))
  = Some (str "Cannot read properties of null (reading 'detail')")
  ∧ videoInfo
      (state (snd (run (fetchVideoInfo localhost (loaded a_video_url)
                          {| info_response :=
                               Normal {| ok := false; json := Normal null_body |} |})
                       (loaded a_video_url))))
    = None.
Proof.
  destruct (fetchVideoInfo_failure_messages localhost (loaded a_video_url)
              {| info_response := Normal {| ok := false; json := Normal null_body |} |}
              (str "https%3A%2F%2Fyoutu.be%2FdQw4w9WgXcQ")) as (_ & H & _).
  - discriminate.
  - reflexivity.
  - exact (H {| ok := false; json := Normal null_body |} null_body
             eq_refl eq_refl eq_refl eq_refl).
Defined.

(** X13.  Fetching new video info keeps the format selected for the
    previous video: [fetchVideoInfo] never touches [selectedFormat], so
    after an OK response with a truthy body a download started from the
    page it leaves sends, as [format_id], the format that was selected
    before the fetch, whether or not the new video has it. *)
Theorem download_after_fetch_sends_earlier_format (c : Config) (st : State)
    (ri : InfoRun) (rd : DownloadRun) (enc : jsstring) (resp : Response InfoData)
    (data : InfoData) :
  trim (url st) ≠ [] ->
  encode (url st) = Some enc ->
  info_response ri = Normal resp ->
  ok resp = true ->
  json resp = Normal data ->
  truthy (data_value data) = true ->
  videoInfo (state (snd (run (fetchVideoInfo c st ri) st))) = Some (data_info data)
  ∧ only [a_request]
      (trace (snd (run (handleDownload c (state (snd (run (fetchVideoInfo c st ri) st))) rd)
                       (state (snd (run (fetchVideoInfo c st ri) st))))))
    = [fetch (API_BASE c ++ str "/api/download?url=" ++ enc
              ++ str "&format_id=" ++ selectedFormat st
              ++ str "&client_id=" ++ clientId (random rd))].
Proof.
  intros Hblank Henc Hresp Hok Hjson Htruthy.
  destruct (fetchVideoInfo_final c st ri Hblank) as (w & -> & Hst & _).
  cbn [snd]. unfold info_verdict in Hst. rewrite Henc, Hresp, Hjson, Hok in Hst.
  cbn [negb] in Hst. unfold stored in Hst. rewrite Htruthy in Hst.
  rewrite Hst. split; [done|].
  erewrite handleDownload_request; [|reflexivity].
  cbn [url selectedFormat]. by rewrite Henc.
Qed.

Lemma download_after_fetch_sends_earlier_format_witness :
  only [a_request]
    (trace (snd (run (handleDownload localhost
                        (state (snd (run (fetchVideoInfo localhost (failed_before a_video_url)
                                            {| info_response :=
                                                 Normal {| ok := true;
                                                           json := Normal sample_body |} |})
                                         (failed_before a_video_url))))
                        (unreachable a_random_number))
                     (state (snd (run (fetchVideoInfo localhost (failed_before a_video_url)
                                         {| info_response :=
                                              Normal {| ok := true;
                                                        json := Normal sample_body |} |})
                                      (failed_before a_video_url)))))))
  = [fetch (API_BASE localhost ++ str "/api/download?url="
            ++ str "https%3A%2F%2Fyoutu.be%2FdQw4w9WgXcQ"
            ++ str "&format_id=" ++ str "22"
            ++ str "&client_id=" ++ clientId a_random_number)].
Proof.
  apply (download_after_fetch_sends_earlier_format localhost (failed_before a_video_url)
           {| info_response := Normal {| ok := true; json := Normal sample_body |} |}
           (unreachable a_random_number)
           (str "https%3A%2F%2Fyoutu.be%2FdQw4w9WgXcQ")
           {| ok := true; json := Normal sample_body |} sample_body).
  - discriminate.
  - reflexivity.
  - reflexivity.
  - reflexivity.
  - reflexivity.
  - reflexivity.
Defined.

(** ** The strings the requests are built from *)

Ltac Zify.zify_post_hook ::= Z.to_euclidean_division_equations.

Lemma trimStart_split (s : jsstring) :
  ∃ l, s = l ++ trimStart s
       ∧ Forall (fun c => is_white_space c = true) l
       ∧ match trimStart s with
         | [] => True
         | c :: _ => is_white_space c = false
         end.
Proof.
  induction s as [|c s (l & Hs & Hl & Hhd)].
  - by exists [].
  - cbn [trimStart]. destruct (is_white_space c) eqn:Hc.
    + exists (c :: l). split_and!; [by rewrite Hs at 1|by constructor|done].
    + by exists [].
Qed.

Lemma trimStart_nil_iff (s : jsstring) :
  trimStart s = [] <-> Forall (fun c => is_white_space c = true) s.
Proof.
  induction s as [|c s IH]; [done|]. cbn [trimStart].
  destruct (is_white_space c) eqn:Hc.
  - rewrite IH. split; [by constructor|by inversion 1].
  - split; [done|]. inversion 1; congruence.
Qed.

Lemma trim_nil_iff (s : jsstring) :
  trim s = [] <-> Forall (fun c => is_white_space c = true) s.
Proof.
  unfold trim, trimEnd. split.
  - intros Hnil. apply (f_equal reverse) in Hnil.
    rewrite reverse_involutive in Hnil. cbn in Hnil.
    apply trimStart_nil_iff, Forall_reverse in Hnil.
    destruct (trimStart_split s) as (l & Hs & Hl & Hhd).
    destruct (trimStart s) as [|c t] eqn:Ht; [by apply trimStart_nil_iff|].
    rewrite reverse_involutive in Hnil. inversion Hnil; congruence.
  - intros Hall. apply trimStart_nil_iff in Hall. by rewrite Hall.
Qed.

(** [trim] removes exactly the white space at the two ends: the string is
    some white space, then its trimmed value, then some white space, and
    the trimmed value neither starts nor ends with white space. *)
Lemma trim_removes_white_ends (s : jsstring) :
  (∃ l r, s = l ++ trim s ++ r
          ∧ Forall (fun c => is_white_space c = true) l
          ∧ Forall (fun c => is_white_space c = true) r)
  ∧ (∀ c, head (trim s) = Some c -> is_white_space c = false)
  ∧ (∀ c, last (trim s) = Some c -> is_white_space c = false)
  ∧ (trim s = [] <-> Forall (fun c => is_white_space c = true) s).
Proof.
  destruct (trimStart_split s) as (l & Hs & Hl & Hhd).
  destruct (trimStart_split (reverse (trimStart s))) as (r & Hr & Hrw & Hlast).
  assert (Hmid : trimStart s = trim s ++ reverse r).
  { unfold trim, trimEnd. rewrite <- reverse_app, <- Hr. by rewrite reverse_involutive. }
  split_and!.
  - exists l, (reverse r). split_and!; [|done|by apply Forall_reverse].
    by rewrite <- Hmid.
  - intros c Hc. destruct (trim s) as [|c' t] eqn:Ht; [done|]. injection Hc as ->.
    rewrite Hmid in Hhd. exact Hhd.
  - intros c Hc. unfold trim, trimEnd in Hc. rewrite last_reverse in Hc.
    destruct (trimStart (reverse (trimStart s))) as [|c' t]; [done|].
    by injection Hc as ->.
  - apply trim_nil_iff.
Qed.

(** X14.  [fetchVideoInfo] issues a request exactly when the url holds a
    code unit that is not white space and can be encoded (has no unpaired
    surrogate); a url of spaces, tabs, line breaks or no-break spaces alone
    is treated like an empty one. *)
Theorem fetchVideoInfo_requests_iff (c : Config) (st : State) (r : InfoRun) :
  only [a_request] (trace (snd (run (fetchVideoInfo c st r) st))) ≠ []
  <-> Exists (fun u => is_white_space u = false) (url st) ∧ is_Some (encode (url st)).
Proof.
  rewrite fetchVideoInfo_requests.
  assert (Hwhite : trim (url st) = []
                   <-> ¬ Exists (fun u => is_white_space u = false) (url st)).
  { rewrite trim_nil_iff. split.
    - intros Hall Hex. apply Exists_exists in Hex as (u & Hu & Hnw).
      rewrite Forall_forall in Hall. rewrite (Hall u Hu) in Hnw. discriminate.
    - intros Hno. apply Forall_forall. intros u Hu.
      destruct (is_white_space u) eqn:Hw; [done|].
      exfalso. apply Hno, Exists_exists. eauto. }
  destruct (decide (trim (url st) = [])) as [Hb|Hb].
  - rewrite bool_decide_eq_true_2 by done. split; [done|].
    intros [Hex _]. by apply Hwhite in Hb.
  - rewrite bool_decide_eq_false_2 by done.
    assert (Hex : Exists (fun u => is_white_space u = false) (url st)).
    { destruct (decide (Exists (fun u => is_white_space u = false) (url st)));
        [done|]. by apply Hwhite in n. }
    destruct (encode (url st)) as [enc|]; split.
    + eauto.
    + done.
    + done.
    + by intros [_ []].
Qed.

Lemma hex_digit_unescaped (d : N) : d < 16 -> is_unescaped (hex_digit d) = true.
Proof.
  intros Hd. unfold hex_digit, is_unescaped.
  destruct (N.ltb_spec d 10).
  - apply orb_true_iff; left. apply orb_true_iff; right.
    apply andb_true_iff. rewrite !N.leb_le. lia.
  - apply orb_true_iff; left. apply orb_true_iff; left. apply orb_true_iff; left.
    apply andb_true_iff. rewrite !N.leb_le. lia.
Qed.

Lemma percent_octet_uri (o : N) :
  o < 256 -> Forall (fun c => is_uri_char c = true) (percent_octet o).
Proof.
  intros Ho. unfold percent_octet, is_uri_char. repeat apply Forall_cons_2.
  - done.
  - rewrite hex_digit_unescaped; [done|lia].
  - rewrite hex_digit_unescaped; [done|lia].
  - constructor.
Qed.

Lemma utf8_octets_bound (cp : N) :
  cp < 0x110000 -> Forall (fun o => o < 256) (utf8_octets cp).
Proof.
  intros Hcp. unfold utf8_octets.
  destruct (N.ltb_spec cp 0x80); [|destruct (N.ltb_spec cp 0x800);
    [|destruct (N.ltb_spec cp 0x10000)]];
    repeat apply Forall_cons_2; try apply Forall_nil_2; lia.
Qed.

Lemma escape_code_point_uri (cp : N) :
  cp < 0x110000 -> Forall (fun c => is_uri_char c = true) (escape_code_point cp).
Proof.
  intros Hcp. unfold escape_code_point. apply Forall_join, Forall_fmap.
  eapply Forall_impl; [by apply utf8_octets_bound|].
  intros o Ho. by apply percent_octet_uri.
Qed.

Lemma encode_uri_chars (n : nat) :
  ∀ s e, (length s <= n)%nat ->
         Forall (fun u => u < 0x10000) s ->
         encode s = Some e ->
         Forall (fun c => is_uri_char c = true) e.
Proof.
  induction n as [|n IH]; intros s e Hlen Hunits Henc.
  - destruct s; [|cbn in Hlen; lia]. injection Henc as <-. constructor.
  - destruct s as [|u s]; [injection Henc as <-; constructor|].
    apply Forall_cons in Hunits as [Hu Hunits]. cbn [encode] in Henc.
    cbn [length] in Hlen.
    destruct (is_unescaped u) eqn:Hunesc.
    + destruct (encode s) as [e'|] eqn:He; [|done]. injection Henc as <-.
      constructor; [unfold is_uri_char; by rewrite Hunesc|].
      apply (IH s e'); [lia|done|done].
    + destruct (is_trailing_surrogate u); [done|].
      destruct (is_leading_surrogate u) eqn:Hlead.
      * destruct s as [|d s]; [done|].
        apply Forall_cons in Hunits as [Hd Hunits]. cbn [length] in Hlen.
        destruct (is_trailing_surrogate d) eqn:Htrail; [|done].
        destruct (encode s) as [e'|] eqn:He; [|done]. injection Henc as <-.
        apply Forall_app. split; [|apply (IH s e'); [lia|done|done]].
        apply escape_code_point_uri.
        unfold is_leading_surrogate, is_trailing_surrogate in *.
        apply andb_true_iff in Hlead as [H1 H2], Htrail as [H3 H4].
        apply N.leb_le in H1, H2, H3, H4. lia.
      * destruct (encode s) as [e'|] eqn:He; [|done]. injection Henc as <-.
        apply Forall_app. split; [|apply (IH s e'); [lia|done|done]].
        apply escape_code_point_uri. lia.
Qed.

(** The encoded form of a string holds nothing but unreserved characters
    and percent escapes, so none of the separators of an address. *)
Lemma encode_no_separators (s e : jsstring) :
  Forall (fun u => u < 0x10000) s ->
  encode s = Some e ->
  Forall (fun c => is_uri_char c = true) e
  ∧ Forall (fun c => c ∉ str "&=?#/ +:;,@$") e.
Proof.
  intros Hunits Henc.
  pose proof (encode_uri_chars (length s) s e (le_n _) Hunits Henc) as Huri.
  split; [done|].
  eapply Forall_impl; [exact Huri|]. intros c Hc Hin.
  assert (Forall (fun x => is_uri_char x = false) (str "&=?#/ +:;,@$")) as Hsep
    by compute_done.
  rewrite Forall_forall in Hsep. pose proof (Hsep c Hin) as Hno.
  cbn beta in Hc, Hno. congruence.
Qed.

(** [encodeURIComponent] only fails on surrogates. *)
Lemma encode_without_surrogates (s : jsstring) :
  Forall (fun u => is_leading_surrogate u = false ∧ is_trailing_surrogate u = false) s ->
  is_Some (encode s).
Proof.
  induction 1 as [|u s [Hlead Htrail] _ [e He]]; [by eexists|].
  cbn [encode]. rewrite He, Hlead, Htrail. destruct (is_unescaped u); by eexists.
Qed.

Lemma elem_of_only ks e tr : e ∈ tr -> kind e ∈ ks -> e ∈ only ks tr.
Proof.
  intros Hin Hk. unfold only. apply list_elem_of_In, List.filter_In.
  split; [by apply list_elem_of_In|by apply bool_decide_eq_true_2].
Qed.

(** X15.  In every request the two handlers issue, the url typed into the
    input stays inside its own query parameter: the address is the fixed
    path, then [url=] and the encoded url, which holds nothing but
    unreserved characters ([A-Za-z0-9] and [-_.!~*'()]) and percent escapes,
    so no [&], [=], [?], [#], [/] or space; in the download request it is
    followed by the selected format and the client token, both put in as
    they are. *)
Theorem request_addresses_confine_url (c : Config) (st : State) (ri : InfoRun)
    (rd : DownloadRun) :
  Forall (fun u => u < 0x10000) (url st) ->
  (∀ a, fetch a ∈ trace (snd (run (fetchVideoInfo c st ri) st)) ->
        ∃ e, a = API_BASE c ++ str "/api/info?url=" ++ e
             ∧ Forall (fun ch => is_uri_char ch = true) e
             ∧ Forall (fun ch => ch ∉ str "&=?#/ +:;,@$") e)
  ∧ (∀ a, fetch a ∈ trace (snd (run (handleDownload c st rd) st)) ->
          ∃ e, a = API_BASE c ++ str "/api/download?url=" ++ e
                   ++ str "&format_id=" ++ selectedFormat st
                   ++ str "&client_id=" ++ clientId (random rd)
               ∧ Forall (fun ch => is_uri_char ch = true) e
               ∧ Forall (fun ch => ch ∉ str "&=?#/ +:;,@$") e).
Proof.
  intros Hunits. split; intros a Hin.
  - apply (elem_of_only [a_request]) in Hin; [|kind_in].
    rewrite fetchVideoInfo_requests in Hin.
    destruct (bool_decide (trim (url st) = [])); [by apply elem_of_nil in Hin|].
    destruct (encode (url st)) as [e|] eqn:Henc; [|by apply elem_of_nil in Hin].
    apply list_elem_of_singleton in Hin. injection Hin as ->.
    exists e. split; [done|]. by apply (encode_no_separators (url st)).
  - destruct (videoInfo st) as [info|] eqn:Hinfo.
    + apply (elem_of_only [a_request]) in Hin; [|kind_in].
      rewrite (handleDownload_request c st rd info Hinfo) in Hin.
      destruct (encode (url st)) as [e|] eqn:Henc; [|by apply elem_of_nil in Hin].
      apply list_elem_of_singleton in Hin. injection Hin as ->.
      exists e. split; [done|]. by apply (encode_no_separators (url st)).
    + rewrite (handleDownload_idle c st rd Hinfo) in Hin. cbn [snd trace] in Hin.
      by apply elem_of_nil in Hin.
Qed.

Lemma request_addresses_confine_url_witness :
  Forall (fun u => u < 0x10000) (str "https://youtu.be/x?t=1&client_id=evil")
  ∧ ∀ a, fetch a ∈ trace (snd (run (handleDownload localhost
                                       (loaded (str "https://youtu.be/x?t=1&client_id=evil"))
                                       (unreachable a_random_number))
                                    (loaded (str "https://youtu.be/x?t=1&client_id=evil")))) ->
         ∃ e, a = API_BASE localhost ++ str "/api/download?url=" ++ e
                  ++ str "&format_id=" ++ str "best"
                  ++ str "&client_id=" ++ clientId a_random_number
              ∧ Forall (fun ch => is_uri_char ch = true) e
              ∧ Forall (fun ch => ch ∉ str "&=?#/ +:;,@$") e.
Proof.
  split; [compute_done|].
  apply (request_addresses_confine_url localhost
           (loaded (str "https://youtu.be/x?t=1&client_id=evil"))
           {| info_response := Throw NotAnError |} (unreachable a_random_number)).
  compute_done.
Defined.

(** X16.  The URIError path is only taken for urls that hold a surrogate:
    for a url without surrogate code units (any text of the Basic
    Multilingual Plane) [handleDownload] with video info loaded issues
    exactly one request, also when the url is blank, and [fetchVideoInfo]
    issues exactly one unless the url is blank. *)
Theorem handlers_request_without_surrogates (c : Config) (st : State) (ri : InfoRun)
    (rd : DownloadRun) :
  Forall (fun u => is_leading_surrogate u = false ∧ is_trailing_surrogate u = false)
         (url st) ->
  (trim (url st) ≠ [] ->
   ∃ a, only [a_request] (trace (snd (run (fetchVideoInfo c st ri) st))) = [fetch a])
  ∧ (is_Some (videoInfo st) ->
     ∃ a, only [a_request] (trace (snd (run (handleDownload c st rd) st))) = [fetch a]).
Proof.
  intros Hplain. destruct (encode_without_surrogates _ Hplain) as [e He]. split.
  - intros Hblank. rewrite fetchVideoInfo_requests, He.
    rewrite bool_decide_eq_false_2 by done. by eexists.
  - intros [info Hinfo]. rewrite (handleDownload_request c st rd info Hinfo), He.
    by eexists.
Qed.

Lemma handlers_request_without_surrogates_witness :
  ∃ a, only [a_request]
         (trace (snd (run (handleDownload localhost (loaded (str " "))
                             (unreachable a_random_number))
                          (loaded (str " "))))) = [fetch a].
Proof.
  apply (handlers_request_without_surrogates localhost (loaded (str " "))
           {| info_response := Throw NotAnError |} (unreachable a_random_number)).
  - compute_done.
  - by eexists.
Defined.

(** X17.  The download request carries the text that is in the input when
    Download is clicked, not the url whose video info is shown: after the
    input is edited, the page still shows the earlier video info and the
    same controls, and [handleDownload] sends the encoding of the new text
    with the format selected for the earlier video. *)
Theorem download_sends_current_input (c : Config) (st : State) (r : DownloadRun)
    (info : VideoInfo) (typed_now enc : jsstring) :
  videoInfo st = Some info ->
  encode typed_now = Some enc ->
  videoInfo (onChange typed_now st) = Some info
  ∧ controls (onChange typed_now st) = controls st
  ∧ only [a_request]
      (trace (snd (run (handleDownload c (onChange typed_now st) r)
                       (onChange typed_now st))))
    = [fetch (API_BASE c ++ str "/api/download?url=" ++ enc
              ++ str "&format_id=" ++ selectedFormat st
              ++ str "&client_id=" ++ clientId (random r))].
Proof.
  intros Hinfo Henc. split_and!; [done|done|].
  rewrite (handleDownload_request c (onChange typed_now st) r info Hinfo).
  cbn [onChange url selectedFormat]. by rewrite Henc.
Qed.

Lemma download_sends_current_input_witness :
  only [a_request]
    (trace (snd (run (handleDownload localhost (onChange (str "x y") (loaded a_video_url))
                        (unreachable a_random_number))
                     (onChange (str "x y") (loaded a_video_url)))))
  = [fetch (API_BASE localhost ++ str "/api/download?url=" ++ str "x%20y"
            ++ str "&format_id=" ++ str "best"
            ++ str "&client_id=" ++ clientId a_random_number)].
Proof.
  apply (download_sends_current_input localhost (loaded a_video_url)
           (unreachable a_random_number) sample_info (str "x y") (str "x%20y")).
  - reflexivity.
  - reflexivity.
Defined.

(** ** The characters of the client token *)

Lemma round53_of_multiple (x : N) :
  x mod 2 ^ 53 = 0 ->
  x <= 36 * scale - 36 * 2 ^ 53 ->
  round53 x mod 2 ^ 53 = 0 ∧ round53 x < 36 * scale.
Proof.
  intros Hmul Hle. unfold round53.
  assert (Hx : x < 2 ^ 112) by (unfold scale in Hle; lia).
  destruct (decide (x = 0)) as [->|Hx0]; [cbn; unfold scale; lia|].
  pose proof (N.log2_spec x ltac:(lia)) as [Hlo Hhi].
  assert (Hb : N.log2 x < 112).
  { apply N.log2_lt_pow2; lia. }
  destruct (N.ltb_spec (N.log2 x) 53) as [Hsmall|Hbig].
  { split; [done|unfold scale in *; lia]. }
  rewrite N.shiftr_div_pow2, !N.shiftl_mul_pow2.
  set (b := N.log2 x) in *.
  set (cond := _ || _).
  assert (Hcases : b < 105 ∨ b = 105 ∨ b = 106 ∨ b = 107 ∨ b = 108 ∨ b = 109
                   ∨ b = 110 ∨ b = 111) by lia.
  destruct Hcases as [Hexact|Hcases].
  - (* the multiple of 2^53 is exactly representable *)
    assert (Hdiv : x mod 2 ^ (b - 52) = 0).
    { replace (2 ^ 53) with (2 ^ (b - 52) * 2 ^ (53 - (b - 52))) in Hmul
        by (rewrite <- N.pow_add_r; f_equal; lia).
      apply N.Div0.mod_divides in Hmul as [t Ht].
      apply N.Div0.mod_divides. exists (2 ^ (53 - (b - 52)) * t). lia. }
    apply N.Div0.div_exact in Hdiv.
    rewrite (N.mul_comm (2 ^ (b - 52))) in Hdiv.
    assert (Hhalf : 0 < 1 * 2 ^ (b - 52 - 1)).
    { pose proof (N.pow_nonzero 2 (b - 52 - 1)). lia. }
    assert (Hcond : cond = false).
    { subst cond. rewrite <- Hdiv, N.sub_diag.
      apply orb_false_iff. split.
      - apply N.ltb_ge. lia.
      - apply andb_false_iff. left. apply N.eqb_neq. lia. }
    rewrite Hcond, <- Hdiv. split; [done|unfold scale in *; lia].
  - unfold scale in *.
    assert (Hround : cond = true ->
                     1 * 2 ^ (b - 52 - 1) <= x - x / 2 ^ (b - 52) * 2 ^ (b - 52)).
    { subst cond. intros [Hgt|[Heq _]%andb_true_iff]%orb_true_iff.
      - apply N.ltb_lt in Hgt. lia.
      - apply N.eqb_eq in Heq. lia. }
    clearbody cond.
    destruct Hcases as [Hb'|[Hb'|[Hb'|[Hb'|[Hb'|[Hb'|Hb']]]]]];
      rewrite Hb' in *; clear Hb' Hb;
      repeat match goal with
             | |- context [2 ^ ?n] =>
                 let v := eval vm_compute in (2 ^ n) in change (2 ^ n) with v
             | H : context [2 ^ ?n] |- _ =>
                 let v := eval vm_compute in (2 ^ n) in change (2 ^ n) with v in H
             end;
      (destruct cond; [specialize (Hround eq_refl)|clear Hround]); lia.
Qed.

Lemma carry_over_digits (written : list N) :
  Forall (fun d => d < 36) written ->
  Forall (fun d => d < 36) (fst (carry_over written))
  ∧ (length (fst (carry_over written)) <= length written)%nat.
Proof.
  induction 1 as [|d written Hd Hw [IH1 IH2]]; [done|].
  cbn [carry_over]. destruct (N.ltb_spec (d + 1) 36).
  - split; [by constructor|done].
  - split; [done|cbn [length]; lia].
Qed.

Lemma mod_square_multiple (a c : N) : a mod c = 0 -> (a mod (c * c)) mod c = 0.
Proof.
  intros H. rewrite N.Div0.mod_mul_r, H, N.add_0_l, N.mul_comm.
  apply N.Div0.mod_mul.
Qed.

Lemma fraction_digits_digits (fuel : nat) :
  ∀ fraction delta written,
    fraction < scale ->
    fraction mod 2 ^ 53 = 0 ->
    Forall (fun d => d < 36) written ->
    Forall (fun d => d < 36) (fst (fraction_digits fuel fraction delta written))
    ∧ (length (fst (fraction_digits fuel fraction delta written))
       <= length written + fuel)%nat.
Proof.
  induction fuel as [|fuel IH]; intros fraction delta written Hlt Hmul Hw.
  - cbn. split; [done|lia].
  - cbn [fraction_digits]. cbv zeta.
    assert (Hx : (fraction * 36) mod 2 ^ 53 = 0).
    { apply N.Div0.mod_divides in Hmul as [t ->]. apply N.Div0.mod_divides.
      exists (t * 36). lia. }
    assert (Hxle : fraction * 36 <= 36 * scale - 36 * 2 ^ 53).
    { apply N.Div0.mod_divides in Hmul as [t Ht]. unfold scale in *.
      change (2 ^ 106) with (2 ^ 53 * 2 ^ 53) in *. nia. }
    destruct (round53_of_multiple _ Hx Hxle) as [Hymul Hylt].
    set (y := round53 (fraction * 36)) in *. clearbody y.
    assert (Hdigit : y / scale < 36).
    { apply N.Div0.div_lt_upper_bound. lia. }
    assert (Hw' : Forall (fun d => d < 36) (y / scale :: written)) by by constructor.
    destruct (_ && _).
    + destruct (carry_over_digits _ Hw') as [H1 H2]. split; [done|].
      cbn [length] in H2. lia.
    + destruct (_ <=? _).
      * destruct (IH (y - y / scale * scale) (round53 (delta * 36)) (y / scale :: written))
          as [H1 H2]; [| |done|].
        -- rewrite (N.mul_comm _ scale), <- N.Div0.mod_eq. by apply N.mod_lt.
        -- rewrite (N.mul_comm _ scale), <- N.Div0.mod_eq.
           unfold scale. change (2 ^ 106) with (2 ^ 53 * 2 ^ 53).
           by apply mod_square_multiple.
        -- split; [done|]. cbn [length] in H2. lia.
      * split; [done|]. cbn [fst length]. lia.
Qed.

Lemma radix_digit_lower_alnum (d : N) : d < 36 -> is_lower_alnum (radix_digit d) = true.
Proof.
  intros Hd. unfold radix_digit, is_lower_alnum.
  destruct (N.ltb_spec d 10); apply orb_true_iff; [left|right];
    apply andb_true_iff; rewrite !N.leb_le; lia.
Qed.

(** X18.  For every Number the random source can return, the client token
    holds nothing but the characters [0-9a-z], at most 17 of them: it never
    holds the point of the rendering or any character that would need
    escaping in the channel path or in the query. *)
Theorem clientId_is_lower_alphanumeric (k : unit_double) :
  k < 2 ^ 53 ->
  Forall (fun c => is_lower_alnum c = true) (clientId k)
  ∧ Forall (fun c => is_unescaped c = true) (clientId k)
  ∧ (length (clientId k) <= 17)%nat.
Proof.
  intros Hk.
  assert (Halnum : Forall (fun c => is_lower_alnum c = true) (clientId k)
                   ∧ (length (clientId k) <= 17)%nat).
  { unfold clientId, substring, toString36.
    destruct (_ <=? _); [|split; [by vm_compute|vm_compute; lia]].
    destruct (fraction_digits_digits 22 (k * 2 ^ 53) (2 ^ N.log2 k) [])
      as [Hdigits Hlen].
    - unfold scale. change (2 ^ 106) with (2 ^ 53 * 2 ^ 53). nia.
    - apply N.Div0.mod_divides. exists k. lia.
    - constructor.
    - destruct (fraction_digits 22 (k * 2 ^ 53) (2 ^ N.log2 k) []) as [written [|]];
        [split; [by vm_compute|vm_compute; lia]|].
      cbn [fst length] in *.
      change (str "0.") with [48; 46]. cbn [app drop]. split.
      + apply Forall_drop, Forall_fmap, Forall_reverse.
        eapply Forall_impl; [exact Hdigits|]. intros d Hd. by apply radix_digit_lower_alnum.
      + rewrite length_drop, length_fmap, length_reverse. lia. }
  destruct Halnum as [Halnum Hlen]. split_and!; [done| |done].
  eapply Forall_impl; [exact Halnum|]. intros c Hc. cbn beta in *.
  unfold is_lower_alnum in Hc. unfold is_unescaped.
  apply orb_true_iff in Hc as [Hc|Hc].
  - apply orb_true_iff; left. apply orb_true_iff; right. exact Hc.
  - apply orb_true_iff; left. apply orb_true_iff; left. apply orb_true_iff; right. exact Hc.
Qed.

Lemma clientId_is_lower_alphanumeric_witness :
  Forall (fun c => is_lower_alnum c = true) (clientId a_random_number).
Proof.
  apply (clientId_is_lower_alphanumeric a_random_number).
  reflexivity.
Defined.

(** ** The formatters *)

Import Format.

Lemma uint_units_digits d : Forall (fun c => is_digit c = true) (uint_units d).
Proof. induction d; cbn [uint_units]; constructor; done. Qed.

Lemma uint_units_inj d d' : uint_units d = uint_units d' -> d = d'.
Proof.
  revert d'. induction d; intros d' H; destruct d'; cbn [uint_units] in H;
    try discriminate; try done; injection H as H; f_equal; auto.
Qed.

Lemma decimal_inj a b : decimal a = decimal b -> a = b.
Proof. intros H. by apply DecimalN.Unsigned.to_uint_inj, uint_units_inj. Qed.

Lemma decimal_digits n : Forall (fun c => is_digit c = true) (decimal n).
Proof. apply uint_units_digits. Qed.

(** Two strings cut at the first occurrence of a separator. *)
Lemma split_at_separator (c : N) (d1 d2 r1 r2 : jsstring) :
  c ∉ d1 -> c ∉ d2 -> d1 ++ c :: r1 = d2 ++ c :: r2 -> d1 = d2 ∧ r1 = r2.
Proof.
  revert d2. induction d1 as [|x d1 IH]; intros [|y d2] H1 H2 H; cbn in H.
  - by injection H as ->.
  - injection H as -> _. exfalso. apply H2. left.
  - injection H as -> _. exfalso. apply H1. left.
  - injection H as -> H. destruct (IH d2) as [-> ->]; [| |done|done].
    + intros Hin. apply H1. by right.
    + intros Hin. apply H2. by right.
Qed.

Lemma digits_without (c : N) (s : jsstring) :
  is_digit c = false -> Forall (fun u => is_digit u = true) s -> c ∉ s.
Proof.
  intros Hc Hs Hin. rewrite Forall_forall in Hs. specialize (Hs c Hin). congruence.
Qed.

Lemma below_sixty (n : N) : n < 60 -> n ∈ (N.of_nat <$> seq 0 60).
Proof.
  intros H. apply list_elem_of_fmap. exists (N.to_nat n). split; [lia|].
  apply elem_of_seq. lia.
Qed.

Lemma two_places (n : N) :
  n < 60 ->
  length (padStart 2 48 (decimal n)) = 2%nat
  ∧ Forall (fun u => is_digit u = true) (padStart 2 48 (decimal n))
  ∧ digits_value (padStart 2 48 (decimal n)) = n.
Proof.
  intros H. apply below_sixty in H. revert n H. apply Forall_forall.
  compute_done.
Qed.

Lemma two_places_inj (a b : N) :
  a < 60 -> b < 60 -> padStart 2 48 (decimal a) = padStart 2 48 (decimal b) -> a = b.
Proof.
  intros Ha Hb H. destruct (two_places a Ha) as (_ & _ & <-).
  destruct (two_places b Hb) as (_ & _ & <-). by rewrite H.
Qed.

Lemma colon_not_in_decimal n : 58 ∉ decimal n.
Proof. apply digits_without; [done|apply decimal_digits]. Qed.

Lemma colon_not_in_two_places n : n < 60 -> 58 ∉ padStart 2 48 (decimal n).
Proof. intros H. apply digits_without; [done|]. by destruct (two_places n H) as (_ & ? & _). Qed.

Lemma formatDuration_inj (a b : N) : formatDuration a = formatDuration b -> a = b.
Proof.
  unfold formatDuration. change (str ":") with [58]. cbv zeta.
  assert (Hma : a mod 3600 / 60 < 60) by lia.
  assert (Hmb : b mod 3600 / 60 < 60) by lia.
  assert (Hsa : a mod 60 < 60) by lia.
  assert (Hsb : b mod 60 < 60) by lia.
  destruct (N.ltb_spec 0 (a / 3600)) as [Ha|Ha], (N.ltb_spec 0 (b / 3600)) as [Hb|Hb];
    cbn [app]; intros H.
  - apply split_at_separator in H as [Hh H]; [|apply colon_not_in_decimal..].
    apply split_at_separator in H as [Hm Hs]; [|by apply colon_not_in_two_places..].
    apply decimal_inj in Hh. apply two_places_inj in Hm, Hs; [|done..]. lia.
  - apply split_at_separator in H as [_ H]; [|apply colon_not_in_decimal..].
    apply (f_equal length) in H. rewrite length_app in H. cbn [length] in H.
    destruct (two_places _ Hma) as (L1 & _ & _), (two_places _ Hsa) as (L2 & _ & _),
      (two_places _ Hsb) as (L3 & _ & _). lia.
  - apply split_at_separator in H as [_ H]; [|apply colon_not_in_decimal..].
    apply (f_equal length) in H. rewrite length_app in H. cbn [length] in H.
    destruct (two_places _ Hmb) as (L1 & _ & _), (two_places _ Hsa) as (L2 & _ & _),
      (two_places _ Hsb) as (L3 & _ & _). lia.
  - apply split_at_separator in H as [Hm Hs]; [|apply colon_not_in_decimal..].
    apply decimal_inj in Hm. apply two_places_inj in Hs; [|done..]. lia.
Qed.

Lemma formatTime_inj (a b : N) : formatTime a = formatTime b -> a = b.
Proof.
  assert (Hform : ∀ n, formatTime n
                       = if n <? 60 then decimal n ++ [115]
                         else decimal (n / 60) ++ 109 :: 32 :: decimal (n mod 60) ++ [115]).
  { intros n. unfold formatTime. destruct (N.eqb_spec n 0) as [->|_]; [done|].
    destruct (n <? 60); [done|]. cbv zeta. change (str "m ") with [109; 32].
    change (str "s") with [115]. done. }
  rewrite !Hform.
  assert (Hm : ∀ n, 109 ∉ decimal n) by (intros n; apply digits_without; [done|apply decimal_digits]).
  destruct (N.ltb_spec a 60) as [Ha|Ha], (N.ltb_spec b 60) as [Hb|Hb]; intros H.
  - apply app_inj_tail in H as [H _]. by apply decimal_inj.
  - exfalso. apply (Hm a).
    change (decimal (b / 60) ++ 109 :: 32 :: decimal (b mod 60) ++ [115])
      with (decimal (b / 60) ++ (109 :: 32 :: decimal (b mod 60)) ++ [115]) in H.
    rewrite app_assoc in H. apply app_inj_tail in H as [H _].
    rewrite H. apply elem_of_app. right. left.
  - exfalso. apply (Hm b).
    change (decimal (a / 60) ++ 109 :: 32 :: decimal (a mod 60) ++ [115])
      with (decimal (a / 60) ++ (109 :: 32 :: decimal (a mod 60)) ++ [115]) in H.
    rewrite app_assoc in H. apply app_inj_tail in H as [H _].
    rewrite <- H. apply elem_of_app. right. left.
  - apply split_at_separator in H as [Hq Hr]; [|apply Hm..].
    injection Hr as Hr. apply app_inj_tail in Hr as [Hr _].
    apply decimal_inj in Hq, Hr. lia.
Qed.

(** X19.  [formatDuration] tells whole durations apart: two different
    numbers of seconds (below 2^53) are never shown as the same text, with
    or without the hours field, the minutes and seconds being padded to two
    places after the first field. *)
Theorem formatDuration_tells_durations_apart (a b : N) :
  a < 2 ^ 53 -> b < 2 ^ 53 -> a ≠ b -> formatDuration a ≠ formatDuration b.
Proof. intros _ _ Hne H. by apply Hne, formatDuration_inj. Qed.

Lemma formatDuration_tells_durations_apart_witness :
  formatDuration 3599 ≠ formatDuration 3600.
Proof.
  apply (formatDuration_tells_durations_apart 3599 3600).
  - reflexivity.
  - reflexivity.
  - discriminate.
Defined.

(** X20.  [formatTime] tells whole numbers of seconds apart: the texts
    ["0s"], [n ++ "s"] below a minute and [m ++ "m " ++ s ++ "s"] from a
    minute on never coincide for two different numbers (below 2^53),
    although the seconds after the minutes are not padded. *)
Theorem formatTime_tells_times_apart (a b : N) :
  a < 2 ^ 53 -> b < 2 ^ 53 -> a ≠ b -> formatTime a ≠ formatTime b.
Proof. intros _ _ Hne H. by apply Hne, formatTime_inj. Qed.

Lemma formatTime_tells_times_apart_witness :
  formatTime 59 ≠ formatTime 60.
Proof.
  apply (formatTime_tells_times_apart 59 60).
  - reflexivity.
  - reflexivity.
  - discriminate.
Defined.

Lemma of_uint_zeros j : N.of_uint (zeros j) = 0.
Proof. induction j as [|j IH]; [done|]. exact IH. Qed.

Lemma uint_units_zeros j : uint_units (zeros j) = replicate j 48.
Proof. induction j as [|j IH]; [done|]. cbn. by rewrite IH. Qed.

Lemma padded_zero (w : nat) (n : N) :
  padStart w 48 (decimal n) = replicate w 48 -> n = 0.
Proof.
  unfold padStart. intros H.
  assert (Hd : decimal n = replicate (length (decimal n)) 48).
  { apply (f_equal (drop (w - length (decimal n)))) in H.
    rewrite drop_app_length' in H by by rewrite length_replicate.
    rewrite H, drop_replicate, length_replicate. done. }
  rewrite <- uint_units_zeros in Hd. apply uint_units_inj in Hd.
  rewrite <- (DecimalN.Unsigned.of_to n), Hd. apply of_uint_zeros.
Qed.

Lemma padStart_digits w s :
  Forall (fun u => is_digit u = true) s ->
  Forall (fun u => is_digit u = true) (padStart w 48 s).
Proof. intros H. apply Forall_app. split; [by apply Forall_replicate|done]. Qed.

(** [toFixed] gives all zeros only when the rounded value is zero. *)
Lemma toFixed_zero (f : nat) (num k : N) :
  toFixed (S f) num k = [48] ++ str "." ++ replicate (S f) 48 ->
  (2 * num * 10 ^ N.of_nat (S f) + 2 ^ k) / 2 ^ (k + 1) = 0.
Proof.
  unfold toFixed. cbv zeta. set (n := _ / _). clearbody n.
  set (m := padStart (S (S f)) 48 (decimal n)).
  assert (Hm : Forall (fun u => is_digit u = true) m)
    by apply padStart_digits, decimal_digits.
  change (str ".") with [46]. cbn [app]. intros H.
  change (48 :: 46 :: replicate (S f) 48) with ([48] ++ 46 :: replicate (S f) 48) in H.
  apply split_at_separator in H as [H1 H2].
  - apply (padded_zero (S (S f))). fold m.
    rewrite <- (take_drop (length m - S f) m), H1, H2. done.
  - apply digits_without; [done|]. by apply Forall_take.
  - apply digits_without; [done|]. by repeat constructor.
Qed.

(** X21.  What [formatSpeed] shows for small whole speeds: ["0 MB/s"] for
    0 only, and ["0.0 MB/s"] exactly for the speeds from 1 to 52428 bytes
    per second (less than half a tenth of 1024 * 1024), which the page thus
    cannot tell from one another. *)
Theorem formatSpeed_zero (speed : N) :
  speed < 2 ^ 53 ->
  (formatSpeed speed = str "0.0 MB/s" <-> 0 < speed <= 52428)
  ∧ (formatSpeed speed = str "0 MB/s" <-> speed = 0).
Proof.
  intros _. unfold formatSpeed. split.
  - destruct (N.eqb_spec speed 0) as [->|Hpos]; [split; [done|lia]|]. split.
    + intros H. change (str "0.0 MB/s") with (([48] ++ str "." ++ replicate 1 48) ++ str " MB/s") in H.
      apply app_inv_tail in H. apply toFixed_zero in H.
      change (2 ^ (20 + 1)) with 2097152 in H. change (2 ^ 20) with 1048576 in H.
      change (10 ^ N.of_nat 1) with 10 in H. lia.
    + intros [_ Hle]. unfold toFixed. cbv zeta.
      replace ((2 * speed * 10 ^ N.of_nat 1 + 2 ^ 20) / 2 ^ (20 + 1)) with 0; [done|].
      change (2 ^ (20 + 1)) with 2097152. change (2 ^ 20) with 1048576.
      change (10 ^ N.of_nat 1) with 10. lia.
  - destruct (N.eqb_spec speed 0) as [->|Hpos]; [done|]. split; [|done].
    intros H. apply (f_equal length) in H. rewrite length_app in H.
    unfold toFixed in H. cbv zeta in H. rewrite !length_app in H.
    change (length (str " MB/s")) with 5%nat in H.
    change (length (str "0 MB/s")) with 6%nat in H.
    change (length (str ".")) with 1%nat in H.
    rewrite length_drop, length_take in H. unfold padStart in H.
    rewrite !length_app, !length_replicate in H. lia.
Qed.

Lemma formatSpeed_zero_witness :
  formatSpeed 52428 = str "0.0 MB/s" ∧ formatSpeed 52429 ≠ str "0.0 MB/s".
Proof.
  split.
  - apply (formatSpeed_zero 52428); [reflexivity|lia].
  - intros H. apply (formatSpeed_zero 52429) in H; [lia|reflexivity].
Defined.

(** X22.  The edges of [formatFileSize] on whole sizes: ["Unknown"] is
    shown for 0 (as for [null]) and for no other size; ["0.00 MB"] exactly
    for the sizes from 1 to 5242 bytes; the unit changes only above 1024 MB,
    so the sizes from 5242 bytes below 2^30 up to 2^30 are shown as
    ["1024.00 MB"], and the ones just above as ["1.00 GB"]. *)
Theorem formatFileSize_edges (bytes : N) :
  bytes < 2 ^ 53 ->
  (formatFileSize (Some bytes) = str "Unknown" <-> bytes = 0)
  ∧ (formatFileSize (Some bytes) = str "0.00 MB" <-> 0 < bytes <= 5242)
  ∧ (2 ^ 30 - 5242 <= bytes <= 2 ^ 30 -> formatFileSize (Some bytes) = str "1024.00 MB")
  ∧ (2 ^ 30 < bytes <= 1079110533 -> formatFileSize (Some bytes) = str "1.00 GB").
Proof.
  intros _. unfold formatFileSize.
  change (2 ^ 30) with 1073741824.
  destruct (N.eqb_spec bytes 0) as [->|Hpos].
  { split_and!; [done|split; [done|lia]|lia|lia]. }
  destruct (N.ltb_spec 1073741824 bytes) as [Hbig|Hsmall].
  - split_and!.
    + split; [|done]. intros H. change (str "Unknown") with (str "Unkn" ++ str "own") in H.
      by apply app_inj_2 in H as [_ H].
    + split; [|lia]. intros H. change (str "0.00 MB") with (str "0.00" ++ str " MB") in H.
      by apply app_inj_2 in H as [_ H].
    + lia.
    + intros [_ Hhi]. unfold toFixed. cbv zeta.
      replace ((2 * bytes * 10 ^ N.of_nat 2 + 2 ^ 30) / 2 ^ (30 + 1)) with 100;
        [by vm_compute|].
      change (2 ^ (30 + 1)) with 2147483648. change (2 ^ 30) with 1073741824.
      change (10 ^ N.of_nat 2) with 100. lia.
  - split_and!.
    + split; [|done]. intros H. change (str "Unknown") with (str "Unkn" ++ str "own") in H.
      by apply app_inj_2 in H as [_ H].
    + split.
      * intros H.
        change (str "0.00 MB") with (([48] ++ str "." ++ replicate 2 48) ++ str " MB") in H.
        apply app_inv_tail in H. apply toFixed_zero in H.
        change (2 ^ (20 + 1)) with 2097152 in H. change (2 ^ 20) with 1048576 in H.
        change (10 ^ N.of_nat 2) with 100 in H. lia.
      * intros [_ Hle]. unfold toFixed. cbv zeta.
        replace ((2 * bytes * 10 ^ N.of_nat 2 + 2 ^ 20) / 2 ^ (20 + 1)) with 0; [done|].
        change (2 ^ (20 + 1)) with 2097152. change (2 ^ 20) with 1048576.
        change (10 ^ N.of_nat 2) with 100. lia.
    + intros [Hlo _]. unfold toFixed. cbv zeta.
      replace ((2 * bytes * 10 ^ N.of_nat 2 + 2 ^ 20) / 2 ^ (20 + 1)) with 102400;
        [by vm_compute|].
      change (2 ^ (20 + 1)) with 2097152. change (2 ^ 20) with 1048576.
      change (10 ^ N.of_nat 2) with 100. lia.
    + lia.
Qed.

Lemma formatFileSize_edges_witness :
  formatFileSize (Some 1073741824) = str "1024.00 MB".
Proof.
  apply (formatFileSize_edges 1073741824).
  - reflexivity.
  - vm_compute. split; discriminate.
Defined.

